(** * redgifs/http.py: routes, the two transports and the download resolver

    A shallow embedding of [redgifs/http.py] and the properties its
    specification states about it.

    Conventions of the embedding.
    - A Python [str] is represented by the [string] of its UTF-8 bytes; this
      is the encoding [urllib.parse.quote] works on.  Strings that have no
      UTF-8 encoding (lone surrogates) are not represented.
    - A Python call either returns, raises, or leaves the fragment of the
      language that is modelled ([outcome]).
    - Code that performs I/O is a function from the [World] before the call
      to the outcome and the [World] after it ([M]).  A coroutine object is
      such a function that has not been run yet; [await] runs it.
    - What the module imports from elsewhere ([yarl], the [requests] and
      [aiohttp] servers, [REDGIFS_THUMBS_RE], [__version__], [sys.version])
      is collected in the class [Externals]. *)

From Stdlib Require Import ZArith Ascii String DecimalString.
From stdpp Require Import gmap strings list fin_maps.

Local Open Scope string_scope.

(* stdpp keeps [simpl] from unfolding [append]; the proofs below compute
   with it on literal prefixes. *)
#[local] Arguments String.append !_ _ : simpl nomatch.

(** ** Characters and strings *)

Definition code (c : ascii) : N := N_of_ascii c.

Definition between (lo hi : N) (c : ascii) : bool :=
  ((lo <=? code c) && (code c <=? hi))%N.

Definition is_upper : ascii -> bool := between 65 90.
Definition is_lower : ascii -> bool := between 97 122.
Definition is_digit : ascii -> bool := between 48 57.

(** [c in s] for a one-character [c]. *)
Fixpoint char_in (c : ascii) (s : string) : bool :=
  match s with
  | EmptyString => false
  | String d s' => Ascii.eqb c d || char_in c s'
  end.

Fixpoint all_chars (p : ascii -> bool) (s : string) : bool :=
  match s with
  | EmptyString => true
  | String c s' => p c && all_chars p s'
  end.

Fixpoint startswith (p s : string) : bool :=
  match p, s with
  | EmptyString, _ => true
  | String a p', String b s' => Ascii.eqb a b && startswith p' s'
  | String _ _, EmptyString => false
  end.

(** [sub in s] on strings: [sub] occurs in [s] as a contiguous run. *)
Fixpoint str_in (sub s : string) : bool :=
  startswith sub s ||
  match s with
  | EmptyString => false
  | String _ s' => str_in sub s'
  end.

Fixpoint lstrip (chars s : string) : string :=
  match s with
  | EmptyString => EmptyString
  | String c s' => if char_in c chars then lstrip chars s' else s
  end.

(** [rstrip] drops the longest suffix made of characters of [chars]: a
    character goes when it is in [chars] and everything after it went. *)
Fixpoint rstrip (chars s : string) : string :=
  match s with
  | EmptyString => EmptyString
  | String c s' =>
      match rstrip chars s' with
      | EmptyString => if char_in c chars then EmptyString else String c EmptyString
      | r => String c r
      end
  end.

(** [s.strip(chars)] *)
Definition strip (chars s : string) : string := rstrip chars (lstrip chars s).

(** [s[:n]] *)
Fixpoint str_take (n : nat) (s : string) : string :=
  match n, s with
  | S n', String c s' => String c (str_take n' s')
  | _, _ => EmptyString
  end.

(** [str(z)] for an [int]. *)
Definition str_of_int (z : Z) : string := NilZero.string_of_int (Z.to_int z).

(** The double quote character, for messages that contain one. *)
Definition dquote : string := String (ascii_of_nat 34) EmptyString.

(** ** urllib.parse.quote

    [quote(string)] with its default arguments: the string is encoded as
    UTF-8 and every byte outside [_ALWAYS_SAFE] (letters, digits and
    [_.-~]) and outside [safe], which defaults to [/], becomes [%XX] with
    two upper-case hexadecimal digits. *)

Definition always_safe (c : ascii) : bool :=
  is_upper c || is_lower c || is_digit c || char_in c "_.-~".

Definition hex_digit (n : N) : ascii :=
  if (n <? 10)%N then ascii_of_N (48 + n) else ascii_of_N (55 + n).

Definition quoter (safe : string) (c : ascii) : string :=
  if always_safe c || char_in c safe then String c EmptyString
  else String "%" (String (hex_digit (code c / 16)) (String (hex_digit (code c mod 16)) EmptyString)).

Fixpoint quote_from_bytes (bs safe : string) : string :=
  match bs with
  | EmptyString => EmptyString
  | String c bs' => quoter safe c ++ quote_from_bytes bs' safe
  end.

Definition quote (s : string) : string := quote_from_bytes s "/".

(** ** Values the module handles *)

(** Parsed JSON, as [Response.json()] returns it. *)
#[warnings="-register-all"]
Inductive json :=
| JNull
| JBool (b : bool)
| JNum (z : Z)
| JStr (s : string)
| JArr (l : list json)
| JObj (fields : list (string * json)).

(** What the code reads of a response object of [requests] or [aiohttp]:
    [status_code] / [status], [content] / [read()], and [json()], which is
    [None] here when the body does not parse and [json()] raises. *)
Record Response := {
  status_code : Z;
  content : string;
  json_body : option json
}.

Inductive exn :=
| RuntimeError (msg : string)
| TypeError (msg : string)
| ValueError (msg : string)
| KeyError (key : string)
| HTTPException (r : Response) (js : json)
| JSONDecodeError
| TransportError
| OSError (filename : string).

Inductive outcome (A : Type) :=
| Return (a : A)
| Raise (e : exn)
| Unmodelled.
Arguments Return {A} a.
Arguments Raise {A} e.
Arguments Unmodelled {A}.

Definition outcome_bind {A B} (o : outcome A) (k : A -> outcome B) : outcome B :=
  match o with
  | Return a => k a
  | Raise e => Raise e
  | Unmodelled => Unmodelled
  end.

(** A keyword argument of [Route]: the code tells [str] from everything
    else; integers and booleans are what its callers pass besides. *)
Inductive value :=
| VStr (s : string)
| VInt (z : Z)
| VBool (b : bool).

(** [format(v, '')], the text [str.format_map] inserts for a field without
    conversion or format specification. *)
Definition format_value (v : value) : string :=
  match v with
  | VStr s => s
  | VInt z => str_of_int z
  | VBool true => "True"
  | VBool false => "False"
  end.

(** ** str.format_map

    The scanner of CPython's [str.format_map], for replacement fields that
    are a bare name.  [{{] and [}}] stand for one brace; a field with a
    conversion ([!]), a format specification ([:]), an attribute ([.]) or an
    index ([[]) is outside the model.  A field whose name is empty or a
    decimal number is positional, which [format_map] refuses. *)

Inductive scan_state :=
| InText
| InField (name : string).

Definition field_text (mapping : gmap string value) (name : string) : outcome string :=
  if all_chars is_digit name
  then Raise (ValueError "Format string contains positional fields")
  else match mapping !! name with
       | Some v => Return (format_value v)
       | None => Raise (KeyError name)
       end.

Definition emit (s : string) (o : outcome string) : outcome string :=
  outcome_bind o (fun t => Return (s ++ t)).

Fixpoint format_scan (mapping : gmap string value) (st : scan_state) (s : string)
  : outcome string :=
  match st, s with
  | InText, EmptyString => Return EmptyString
  | InText, String c rest =>
      if Ascii.eqb c "{" then
        match rest with
        | EmptyString => Raise (ValueError "Single '{' encountered in format string")
        | String c' rest' =>
            if Ascii.eqb c' "{" then emit "{" (format_scan mapping InText rest')
            else format_scan mapping (InField EmptyString) rest
        end
      else if Ascii.eqb c "}" then
        match rest with
        | EmptyString => Raise (ValueError "Single '}' encountered in format string")
        | String c' rest' =>
            if Ascii.eqb c' "}" then emit "}" (format_scan mapping InText rest')
            else Raise (ValueError "Single '}' encountered in format string")
        end
      else emit (String c EmptyString) (format_scan mapping InText rest)
  | InField name, EmptyString => Raise (ValueError "expected '}' before end of string")
  | InField name, String c rest =>
      if Ascii.eqb c "}" then
        outcome_bind (field_text mapping name)
          (fun t => emit t (format_scan mapping InText rest))
      else if Ascii.eqb c "{" then Raise (ValueError "unexpected '{' in field name")
      else if char_in c "!:.[" then Unmodelled
      else format_scan mapping (InField (name ++ String c EmptyString)) rest
  end.

Definition format_map (s : string) (mapping : gmap string value) : outcome string :=
  format_scan mapping InText s.

(** ** class Route *)

Module Route.

Record t := {
  method : string;
  path : string;
  url : string
}.

Definition BASE : string := "https://api.redgifs.com".

(** [{k: quote(v) if isinstance(v, str) else v for k, v in parameters.items()}] *)
Definition quoted (parameters : gmap string value) : gmap string value :=
  (fun v => match v with VStr s => VStr (quote s) | _ => v end) <$> parameters.

Definition __init__ (method path : string) (parameters : gmap string value)
  : outcome t :=
  let url := BASE ++ path in
  outcome_bind
    (if bool_decide (parameters = ∅) then Return url
     else format_map url (quoted parameters))
    (fun url => Return {| method := method; path := path; url := url |}).

End Route.

(** ** yarl.URL *)

Module yarl.

(** What the code reads of a [yarl.URL]: [str(u)], [u.scheme], [u.host]
    (which may be [None]), [u.path] and [bool(u)]. *)
Record URL := {
  __str__ : string;
  scheme : string;
  host : option string;
  path : string;
  __bool__ : bool
}.

End yarl.

(** [str(x)] for an optional string. *)
Definition str_of_optional (o : option string) : string :=
  match o with
  | Some s => s
  | None => "None"
  end.

(** ** Sessions, calls and the world *)

(** An object passed as [session]: the code asks whether it is a
    [requests.Session] or an [aiohttp.ClientSession]. *)
Inductive object :=
| requests_Session (id : nat)
| aiohttp_ClientSession (id : nat)
| other_object (description : string).

Definition is_requests_Session (o : object) : bool :=
  match o with requests_Session _ => true | _ => false end.

Definition is_aiohttp_ClientSession (o : object) : bool :=
  match o with aiohttp_ClientSession _ => true | _ => false end.

Record ProxyAuth := {
  username : string;
  password : string
}.

Definition headers_t : Type := list (string * string).

(** [**kwargs] / [**params], passed on unread. *)
Definition kwargs_t : Type := list (string * value).

(** The four places where the module hands a request to a session, with
    the arguments written there. *)
Inductive call :=
| requests_request (session : object) (method url : string) (headers : headers_t)
    (proxies : option (string * string)) (auth : option (string * string))
    (timeout : Z) (kwargs : kwargs_t)
| requests_get (session : object) (url : string) (headers : headers_t)
| aiohttp_request (session : object) (method url : string) (headers : headers_t)
    (proxy : option string) (proxy_auth : option (string * string))
    (kwargs : kwargs_t)
| aiohttp_get (session : object) (url : string) (headers : headers_t).

(** [fp]: a path ([str], [bytes], [os.PathLike]) or an [io.BufferedIOBase]
    the caller opened. *)
Inductive target :=
| Path (p : string)
| Sink (id : nat).

Inductive event :=
| Call (c : call)
| NewSession (o : object)
| CloseSession (o : object)
| Open (p : string) (mode : string)
| Write (p : string) (data : string)
| Close (p : string)
| SinkWrite (id : nat) (data : string).

(** State of a byte sink of the caller: what was written to it, and
    whether it is closed. *)
Record sink := {
  written : string;
  closed : bool
}.

Record World := {
  events : list event;          (* I/O done so far, oldest first *)
  files : gmap string string;   (* contents of the files *)
  denied : gset string;         (* paths [open(p, 'wb')] fails on *)
  sinks : gmap nat sink;
  next_session : nat            (* identity of the next session object *)
}.

Class Externals := {
  (** [yarl.URL(s)] *)
  yarl_URL : string -> outcome yarl.URL;
  (** whether [re.match(REDGIFS_THUMBS_RE, s)] is a match *)
  REDGIFS_THUMBS_RE : string -> bool;
  __version__ : string;
  sys_version : string;
  (** the answer to a call after the given history; [None] when the
      library raises instead (connection refused, timeout, ...) *)
  respond : list event -> call -> option Response
}.

(** ** Computations *)

Definition M (A : Type) : Type := World -> outcome A * World.

Definition ret {A} (a : A) : M A := fun w => (Return a, w).

Definition raise {A} (e : exn) : M A := fun w => (Raise e, w).

Definition lift {A} (o : outcome A) : M A := fun w => (o, w).

Definition bind {A B} (c : M A) (k : A -> M B) : M B :=
  fun w =>
    match c w with
    | (Return a, w') => k a w'
    | (Raise e, w') => (Raise e, w')
    | (Unmodelled, w') => (Unmodelled, w')
    end.

Notation "x <- c ;; k" := (bind c (fun x => k))
  (at level 100, c at next level, right associativity).
Notation "c ;; k" := (bind c (fun _ => k))
  (at level 100, right associativity).

Definition record (e : event) (w : World) : World :=
  {| events := events w ++ [e]; files := files w; denied := denied w;
     sinks := sinks w; next_session := next_session w |}.

(** A coroutine object is a computation that has not run; [await] runs it. *)
Definition await {A} (c : M A) : M A := c.

(** Objects that get subscripted in [download]. *)
Inductive pyobject :=
| of_json (j : json)
| coroutine (c : M json).

Fixpoint dict_get (fields : list (string * json)) (key : string) : option json :=
  match fields with
  | [] => None
  | (k, v) :: fields' => if String.eqb k key then Some v else dict_get fields' key
  end.

(** [o[key]] for a string [key] (messages as CPython 3.8 words them). *)
Definition getitem (o : pyobject) (key : string) : outcome pyobject :=
  match o with
  | of_json (JObj fields) =>
      match dict_get fields key with
      | Some v => Return (of_json v)
      | None => Raise (KeyError key)
      end
  | of_json (JArr _) => Raise (TypeError "list indices must be integers or slices, not str")
  | of_json (JStr _) => Raise (TypeError "string indices must be integers")
  | of_json (JNum _) => Raise (TypeError "'int' object is not subscriptable")
  | of_json (JBool _) => Raise (TypeError "'bool' object is not subscriptable")
  | of_json JNull => Raise (TypeError "'NoneType' object is not subscriptable")
  | coroutine _ => Raise (TypeError "'coroutine' object is not subscriptable")
  end.

(** [len(data)] as an [int]. *)
Definition len (data : string) : Z := Z.of_nat (String.length data).

Section Operations.
Context `{E : Externals}.

(** The session performs the call: it is recorded, and the library
    returns a response or raises. *)
Definition perform (c : call) : M Response :=
  fun w =>
    match respond (events w) c with
    | Some r => (Return r, record (Call c) w)
    | None => (Raise TransportError, record (Call c) w)
    end.

(** [requests.Session()] and [aiohttp.ClientSession()] *)
Definition new_session (class : nat -> object) : M object :=
  fun w =>
    let o := class (next_session w) in
    (Return o,
     {| events := events w ++ [NewSession o]; files := files w;
        denied := denied w; sinks := sinks w;
        next_session := S (next_session w) |}).

(** [open(p, 'wb')]: the file is created or truncated. *)
Definition open_wb (p : string) : M unit :=
  fun w =>
    if bool_decide (p ∈ denied w) then (Raise (OSError p), w)
    else (Return tt,
          {| events := events w ++ [Open p "wb"];
             files := <[p := EmptyString]> (files w);
             denied := denied w; sinks := sinks w;
             next_session := next_session w |}).

(** [f.write(data)] on the file opened at [p] *)
Definition file_write (p data : string) : M Z :=
  fun w =>
    (Return (len data),
     {| events := events w ++ [Write p data];
        files := <[p := default EmptyString (files w !! p) ++ data]> (files w);
        denied := denied w; sinks := sinks w;
        next_session := next_session w |}).

(** leaving the [with] block *)
Definition file_close (p : string) : M unit :=
  fun w => (Return tt, record (Close p) w).

(** [fp.write(data)] on a sink of the caller *)
Definition sink_write (id : nat) (data : string) : M Z :=
  fun w =>
    match sinks w !! id with
    | None => (Unmodelled, w)
    | Some s =>
        if closed s then (Raise (ValueError "I/O operation on closed file."), w)
        else (Return (len data),
              {| events := events w ++ [SinkWrite id data];
                 files := files w; denied := denied w;
                 sinks := <[id := {| written := written s ++ data; closed := false |}]> (sinks w);
                 next_session := next_session w |})
    end.

(** The headers both constructors build. *)
Definition default_headers : headers_t :=
  [("User-Agent",
    "redgifs (https://github.com/scrazzz/redgifs " ++ __version__ ++ ") Python/"
      ++ str_take 3 sys_version)].

(** [yarl.URL(proxy) if proxy else None] *)
Definition proxy_url (proxy : option string) : outcome (option yarl.URL) :=
  match proxy with
  | None => Return None
  | Some p =>
      if String.eqb p EmptyString then Return None
      else outcome_bind (yarl_URL p) (fun u => Return (Some u))
  end.

(** Truth value of an optional [yarl.URL]. *)
Definition url_truthy (u : option yarl.URL) : bool :=
  match u with
  | Some u => yarl.__bool__ u
  | None => false
  end.

(** A keyword of [**kwargs] that the call already passes makes the call
    itself a [TypeError] (whose message also names the function and the
    keyword). *)
Definition clashes (taken : list string) (kwargs : kwargs_t) : bool :=
  existsb (fun kv => existsb (String.eqb (fst kv)) taken) kwargs.

Definition check_kwargs (taken : list string) (kwargs : kwargs_t) : M unit :=
  if clashes taken kwargs
  then raise (TypeError "got multiple values for keyword argument")
  else ret tt.

(** [get_gif], which both classes share; [self_request] is the
    [request] method of the class of [self]. *)
Definition get_gif (self_request : Route.t -> kwargs_t -> M pyobject)
    (id : string) (params : kwargs_t) : M pyobject :=
  r <- lift (Route.__init__ "GET" "/v2/gifs/{id}" {[ "id" := VStr id ]}) ;;
  self_request r params.

End Operations.

(** ** class HTTP *)

Module HTTP.
Section HTTP.
Context `{E : Externals}.

Record t := {
  __session : object;
  headers : headers_t;
  proxy : option yarl.URL;
  proxy_auth : option ProxyAuth;
  _proxy : option (string * string);
  _proxy_auth : option (string * string)
}.

Definition __init__ (session : option object) (proxy : option string)
    (proxy_auth : option ProxyAuth) : M t :=
  match session with
  | Some o =>
      if negb (is_requests_Session o)
      then raise (RuntimeError "session is not of type requests.Session")
      else ret tt
  | None => ret tt
  end ;;
  (* every session object is true, so [session or requests.Session()]
     creates one exactly when [session] is [None] *)
  session <- match session with
             | Some o => ret o
             | None => new_session requests_Session
             end ;;
  proxy <- lift (proxy_url proxy) ;;
  let _proxy :=
    match proxy with
    | Some u => if yarl.__bool__ u then Some (yarl.scheme u, yarl.__str__ u) else None
    | None => None
    end in
  let _proxy_auth :=
    match proxy_auth, _proxy with
    | Some a, Some _ => Some (username a, password a)
    | _, _ => None
    end in
  ret {| __session := session; headers := default_headers; proxy := proxy;
         proxy_auth := proxy_auth; _proxy := _proxy; _proxy_auth := _proxy_auth |}.

Definition request (self : t) (route : Route.t) (kwargs : kwargs_t) : M json :=
  let url := Route.url route in
  let method := Route.method route in
  check_kwargs ["method"; "url"; "headers"; "proxies"; "auth"; "timeout"] kwargs ;;
  r <- perform (requests_request (__session self) method url (headers self)
                  (_proxy self) (_proxy_auth self) 60 kwargs) ;;
  match json_body r with
  | None => raise JSONDecodeError
  | Some js =>
      if (status_code r =? 200)%Z then ret js
      else raise (HTTPException r js)
  end.

Definition close (self : t) : M unit :=
  fun w => (Return tt, record (CloseSession (__session self)) w).

(** [self.request] as [get_gif] sees it on an [HTTP]. *)
Definition self_request (self : t) (route : Route.t) (kwargs : kwargs_t) : M pyobject :=
  js <- request self route kwargs ;; ret (of_json js).

(** The local function [dl] of [download]. *)
Definition dl (self : t) (fp : target) (url : string) : M Z :=
  r <- perform (requests_get (__session self) url (headers self)) ;;
  let data := content r in
  match fp with
  | Sink id => sink_write id data
  | Path p =>
      open_wb p ;;
      n <- file_write p data ;;
      file_close p ;;
      ret n
  end.

Definition download (self : t) (url : string) (fp : target) : M Z :=
  yarl_url <- lift (yarl_URL url) ;;
  let str_url := yarl.__str__ yarl_url in
  if forallb (fun x => str_in x (str_of_optional (yarl.host yarl_url))) ["thumbs"; "redgifs"]
  then
    if REDGIFS_THUMBS_RE str_url then dl self fp str_url
    else raise (TypeError (dquote ++ str_url ++ dquote ++ " is an invalid RedGifs URL."))
  else if str_in "watch" (yarl.path yarl_url) then
    let id := strip "/watch/" (yarl.path yarl_url) in
    js <- get_gif (self_request self) id [] ;;
    gif <- lift (getitem js "gif") ;;
    urls <- lift (getitem gif "urls") ;;
    hd_url <- lift (getitem urls "hd") ;;
    match hd_url with
    | of_json (JStr u) => dl self fp u
    | _ => lift Unmodelled
    end
  else ret 1%Z.

End HTTP.
End HTTP.

(** ** class AsyncHttp(HTTP)

    [__init__], [request], [download] and [close] are overridden and
    [get_gif] is inherited.  The bodies of the [async def] methods are
    given; calling one of them yields the [coroutine] of its body. *)

Module AsyncHttp.
Section AsyncHttp.
Context `{E : Externals}.

Record t := {
  __session : object;
  headers : headers_t;
  proxy : option yarl.URL;
  proxy_auth : option ProxyAuth;
  _proxy_auth : option (string * string)
}.

Definition __init__ (session : option object) (proxy : option string)
    (proxy_auth : option ProxyAuth) : M t :=
  match session with
  | Some o =>
      if negb (is_aiohttp_ClientSession o)
      then raise (RuntimeError "session is not of type aiohttp.ClientSession")
      else ret tt
  | None => ret tt
  end ;;
  session <- match session with
             | Some o => ret o
             | None => new_session aiohttp_ClientSession
             end ;;
  proxy <- lift (proxy_url proxy) ;;
  let _proxy_auth :=
    match proxy_auth with
    | Some a => if url_truthy proxy then Some (username a, password a) else None
    | None => None
    end in
  ret {| __session := session; headers := default_headers; proxy := proxy;
         proxy_auth := proxy_auth; _proxy_auth := _proxy_auth |}.

(** [str(self.proxy) if self.proxy else None] *)
Definition proxy_argument (self : t) : option string :=
  match proxy self with
  | Some u => if yarl.__bool__ u then Some (yarl.__str__ u) else None
  | None => None
  end.

(** Body of [async def request]. *)
Definition request (self : t) (route : Route.t) (kwargs : kwargs_t) : M json :=
  let url := Route.url route in
  let method := Route.method route in
  check_kwargs ["method"; "url"; "headers"; "proxy"; "proxy_auth"] kwargs ;;
  resp <- perform (aiohttp_request (__session self) method url (headers self)
                     (proxy_argument self) (_proxy_auth self) kwargs) ;;
  match json_body resp with
  | None => raise JSONDecodeError
  | Some js =>
      if (status_code resp =? 200)%Z then ret js
      else raise (HTTPException resp js)
  end.

(** Body of [async def close]. *)
Definition close (self : t) : M unit :=
  fun w => (Return tt, record (CloseSession (__session self)) w).

(** [self.request] as [get_gif] sees it on an [AsyncHttp]: the call of an
    [async def] returns the coroutine and runs nothing. *)
Definition self_request (self : t) (route : Route.t) (kwargs : kwargs_t) : M pyobject :=
  ret (coroutine (request self route kwargs)).

(** Body of the local [async def dl] of [download]. *)
Definition dl (self : t) (fp : target) (url : string) : M Z :=
  r <- perform (aiohttp_get (__session self) url (headers self)) ;;
  let data := content r in
  match fp with
  | Sink id => sink_write id data
  | Path p =>
      open_wb p ;;
      n <- file_write p data ;;
      file_close p ;;
      ret n
  end.

(** Body of [async def download]. *)
Definition download (self : t) (url : string) (fp : target) : M Z :=
  yarl_url <- lift (yarl_URL url) ;;
  let str_url := yarl.__str__ yarl_url in
  if forallb (fun x => str_in x (str_of_optional (yarl.host yarl_url))) ["thumbs"; "redgifs"]
  then
    if REDGIFS_THUMBS_RE str_url then await (dl self fp str_url)
    else raise (TypeError (dquote ++ str_url ++ dquote ++ " is an invalid RedGifs URL."))
  else if str_in "watch" (yarl.path yarl_url) then
    let id := strip "/watch/" (yarl.path yarl_url) in
    co <- get_gif (self_request self) id [] ;;
    gif <- lift (getitem co "gif") ;;
    urls <- lift (getitem gif "urls") ;;
    hd_url <- lift (getitem urls "hd") ;;
    match hd_url with
    | of_json (JStr u) => await (dl self fp u)
    | _ => lift Unmodelled
    end
  else ret 1%Z.

End AsyncHttp.
End AsyncHttp.

(** ** The specification's reading of a path template

    A template is text without braces interleaved with [{name}]
    placeholders; resolving it replaces each placeholder by the text of its
    parameter. *)

Inductive segment :=
| Text (s : string)
| Placeholder (name : string).

Definition is_brace (c : ascii) : bool := Ascii.eqb c "{" || Ascii.eqb c "}".

Definition brace_free (s : string) : bool := all_chars (fun c => negb (is_brace c)) s.

Definition is_name_start (c : ascii) : bool := is_upper c || is_lower c || Ascii.eqb c "_".

Definition is_name_char (c : ascii) : bool := is_name_start c || is_digit c.

(** A keyword of a call: an (ASCII) identifier. *)
Definition is_identifier (s : string) : bool :=
  match s with
  | EmptyString => false
  | String c s' => is_name_start c && all_chars is_name_char s'
  end.

Definition segment_ok (g : segment) : bool :=
  match g with
  | Text s => brace_free s
  | Placeholder name => is_identifier name
  end.

Definition template_ok (tpl : list segment) : bool := forallb segment_ok tpl.

Fixpoint template_text (tpl : list segment) : string :=
  match tpl with
  | [] => EmptyString
  | Text s :: tpl' => s ++ template_text tpl'
  | Placeholder name :: tpl' => "{" ++ name ++ "}" ++ template_text tpl'
  end.

Fixpoint placeholders (tpl : list segment) : list string :=
  match tpl with
  | [] => []
  | Text _ :: tpl' => placeholders tpl'
  | Placeholder name :: tpl' => name :: placeholders tpl'
  end.

(** The text that stands for a parameter: percent-encoded if textual, the
    literal otherwise. *)
Definition value_text (v : value) : string :=
  match v with
  | VStr s => quote s
  | VInt z => str_of_int z
  | VBool true => "True"
  | VBool false => "False"
  end.

Fixpoint substituted (tpl : list segment) (parameters : gmap string value) : string :=
  match tpl with
  | [] => EmptyString
  | Text s :: tpl' => s ++ substituted tpl' parameters
  | Placeholder name :: tpl' =>
      match parameters !! name with
      | Some v => value_text v
      | None => EmptyString
      end ++ substituted tpl' parameters
  end.

(** The keys of [parameters] are exactly the placeholders of [tpl]. *)
Definition covers (parameters : gmap string value) (tpl : list segment) : bool :=
  bool_decide (dom parameters = list_to_set (placeholders tpl)).

(** RFC 3986: the characters that stand for themselves, and the reserved
    ones ([gen-delims] and [sub-delims]). *)
Definition is_unreserved (c : ascii) : bool :=
  is_upper c || is_lower c || is_digit c || char_in c "-._~".

Definition is_reserved (c : ascii) : bool := char_in c ":/?#[]@!$&'()*+,;=".

(** Percent-encoding with the reserved characters escaped, as the
    specification words it: only unreserved characters stay. *)
Fixpoint percent_encode (s : string) : string :=
  match s with
  | EmptyString => EmptyString
  | String c s' =>
      (if is_unreserved c then String c EmptyString
       else String "%" (String (hex_digit (code c / 16))
                          (String (hex_digit (code c mod 16)) EmptyString)))
      ++ percent_encode s'
  end.

(** Percent-encoding of a path: [/] stays, what is between the slashes is
    percent-encoded. *)
Fixpoint percent_encode_path (s : string) : string :=
  match s with
  | EmptyString => EmptyString
  | String c s' =>
      (if Ascii.eqb c "/" then "/" else percent_encode (String c EmptyString))
      ++ percent_encode_path s'
  end.

(** The text inserted for a parameter: a textual one is percent-encoded as
    a path, an integer or a boolean is written as Python prints it. *)
Definition inserted (v : value) : string :=
  match v with
  | VStr s => percent_encode_path s
  | VInt z => str_of_int z
  | VBool b => if b then "True" else "False"
  end.

(** ** Reading a run *)

(** The calls among some events, in order. *)
Fixpoint calls (l : list event) : list call :=
  match l with
  | [] => []
  | Call c :: l' => c :: calls l'
  | _ :: l' => calls l'
  end.

(** The authentication a call carries: [auth] of [requests], [proxy_auth]
    of [aiohttp]. *)
Definition call_credentials (c : call) : option (string * string) :=
  match c with
  | requests_request _ _ _ _ _ auth _ _ => auth
  | aiohttp_request _ _ _ _ _ proxy_auth _ => proxy_auth
  | requests_get _ _ _ | aiohttp_get _ _ _ => None
  end.

(** An event that is not a call with credentials. *)
Definition without_credentials (e : event) : Prop :=
  match e with
  | Call c => call_credentials c = None
  | _ => True
  end.

(** [w'] continues [w] by events that all satisfy [P]. *)
Definition continues (P : event -> Prop) (w w' : World) : Prop :=
  exists new, events w' = (events w ++ new)%list /\ Forall P new.

(** The world after [requests.Session()] or [aiohttp.ClientSession()]. *)
Definition with_new_session (class : nat -> object) (w : World) : World :=
  {| events := events w ++ [NewSession (class (next_session w))];
     files := files w; denied := denied w; sinks := sinks w;
     next_session := S (next_session w) |}.

(** The events of writing [data] to the target: a path is opened for
    writing in binary mode (which truncates it), written and closed; a sink
    is written. *)
Definition writes (fp : target) (data : string) : list event :=
  match fp with
  | Path p => [Open p "wb"; Write p data; Close p]
  | Sink id => [SinkWrite id data]
  end.

(** The world after [c] was sent and its answer [data] written to [fp]. *)
Definition after_download (c : call) (fp : target) (data : string) (w : World) : World :=
  {| events := events w ++ Call c :: writes fp data;
     files := match fp with
              | Path p => <[p := data]> (files w)
              | Sink _ => files w
              end;
     denied := denied w;
     sinks := match fp with
              | Path _ => sinks w
              | Sink id =>
                  match sinks w !! id with
                  | Some s => <[id := {| written := written s ++ data; closed := false |}]> (sinks w)
                  | None => sinks w
                  end
              end;
     next_session := next_session w |}.

(** The message of [download] for a thumbs host with a wrong path. *)
Definition invalid_url (str_url : string) : exn :=
  TypeError (dquote ++ str_url ++ dquote ++ " is an invalid RedGifs URL.").

(** [js[key]] when [js] is an object that has the key. *)
Definition field (key : string) (js : json) : option json :=
  match js with
  | JObj fields => dict_get fields key
  | _ => None
  end.

(** The value at [gif.urls.hd]. *)
Definition hd_of (js : json) : option json :=
  match field "gif" js with
  | Some gif =>
      match field "urls" gif with
      | Some urls => field "hd" urls
      | None => None
      end
  | None => None
  end.

(** What the specification says of one run of [request], as a property of
    its outcome [o] for a response [r] whose body parses to [js]. *)
Definition gated_on_200 (r : Response) (js : json) (o : outcome json) : Prop :=
  (status_code r = 200%Z -> o = Return js) /\
  (status_code r <> 200%Z -> o = Raise (HTTPException r js)) /\
  ((exists r' js', o = Raise (HTTPException r' js')) <-> status_code r <> 200%Z).

(** Every run of [c] adds only events that satisfy [P]. *)
Definition only {A} (P : event -> Prop) (c : M A) : Prop :=
  forall w, continues P w (snd (c w)).

(** The session argument a constructor accepts. *)
Definition accepted (is_class : object -> bool) (session : option object) : Prop :=
  match session with
  | Some o => is_class o = true
  | None => True
  end.

(** [w1] is [w] after some calls and nothing else: no file and no sink
    was touched. *)
Definition calls_only (w w1 : World) : Prop :=
  (exists l, events w1 = (events w ++ map Call l)%list) /\
  files w1 = files w /\ denied w1 = denied w /\ sinks w1 = sinks w.

(** The target can be written: the path can be opened, the sink exists and
    is open. *)
Definition ready (fp : target) (w : World) : Prop :=
  match fp with
  | Path p => p ∉ denied w
  | Sink id => exists s, sinks w !! id = Some s /\ closed s = false
  end.

(** The host test and the two grammars of the specification. *)
Definition thumbs_host (u : yarl.URL) : bool :=
  str_in "thumbs" (str_of_optional (yarl.host u)) &&
  str_in "redgifs" (str_of_optional (yarl.host u)).

Definition direct_asset_grammar `{E : Externals} (u : yarl.URL) : bool :=
  thumbs_host u && REDGIFS_THUMBS_RE (yarl.__str__ u).

Definition watch_page_grammar (u : yarl.URL) : bool :=
  str_in "watch" (yarl.path u).

(** The last segment of a path: what follows its last slash. *)
Fixpoint trailing_segment (s : string) : string :=
  match s with
  | EmptyString => EmptyString
  | String c s' =>
      if char_in "/" s' then trailing_segment s'
      else if Ascii.eqb c "/" then s' else s
  end.

(** ** An environment for the examples

    A URL splitter that agrees with [yarl] on [https://host/path] without
    user, port, query or fragment; a pattern for the shape
    [https://thumbsN.redgifs.com/name]; and a server that knows one gif. *)

Module Sample.

Fixpoint str_drop (n : nat) (s : string) : string :=
  match n, s with
  | S n', String _ s' => str_drop n' s'
  | _, _ => s
  end.

Fixpoint until_slash (s : string) : string * string :=
  match s with
  | EmptyString => (EmptyString, EmptyString)
  | String c s' =>
      if Ascii.eqb c "/" then (EmptyString, s)
      else let (h, p) := until_slash s' in (String c h, p)
  end.

Definition URL (s : string) : outcome yarl.URL :=
  if startswith "https://" s then
    let (h, p) := until_slash (str_drop 8 s) in
    Return {| yarl.__str__ := if String.eqb p EmptyString then s ++ "/" else s;
              yarl.scheme := "https";
              yarl.host := Some h;
              yarl.path := if String.eqb p EmptyString then "/" else p;
              yarl.__bool__ := true |}
  else Raise (ValueError "not an https URL").

Definition thumbs_re (s : string) : bool :=
  startswith "https://thumbs" s &&
  let rest := lstrip "0123456789" (str_drop 14 s) in
  startswith ".redgifs.com/" rest &&
  negb (String.eqb (str_drop 13 rest) EmptyString).

Definition hd_url : string := "https://thumbs44.redgifs.com/SomeName.mp4".

Definition gif : json :=
  JObj [("gif", JObj [("urls", JObj [("hd", JStr hd_url)])])].

Definition lookup (url : string) : Response :=
  if String.eqb url "https://api.redgifs.com/v2/gifs/somename"
  then {| status_code := 200; content := EmptyString; json_body := Some gif |}
  else {| status_code := 404; content := EmptyString;
          json_body := Some (JObj [("error", JStr "not found")]) |}.

Definition fetch (url : string) : option Response :=
  if thumbs_re url
  then Some {| status_code := 200; content := "video"; json_body := None |}
  else None.

Definition server (history : list event) (c : call) : option Response :=
  match c with
  | requests_request _ _ url _ _ _ _ _ => Some (lookup url)
  | aiohttp_request _ _ url _ _ _ _ => Some (lookup url)
  | requests_get _ url _ => fetch url
  | aiohttp_get _ url _ => fetch url
  end.

Definition externals : Externals :=
  {| yarl_URL := URL;
     REDGIFS_THUMBS_RE := thumbs_re;
     __version__ := "1.0.0";
     sys_version := "3.8.10 (default)";
     respond := server |}.

(** A world with one open sink and nothing else. *)
Definition world : World :=
  {| events := [];
     files := ∅;
     denied := ∅;
     sinks := {[ 0 := {| written := EmptyString; closed := false |} ]};
     next_session := 0 |}.

Definition http : HTTP.t :=
  {| HTTP.__session := requests_Session 0;
     HTTP.headers := default_headers (E := externals);
     HTTP.proxy := None;
     HTTP.proxy_auth := None;
     HTTP._proxy := None;
     HTTP._proxy_auth := None |}.

Definition async_http : AsyncHttp.t :=
  {| AsyncHttp.__session := aiohttp_ClientSession 0;
     AsyncHttp.headers := default_headers (E := externals);
     AsyncHttp.proxy := None;
     AsyncHttp.proxy_auth := None;
     AsyncHttp._proxy_auth := None |}.

End Sample.

(** ** The other methods of HTTP

    [get_tags], [search], [search_creators] and [search_image] build a
    [Route] and hand it to [self.request]; [AsyncHttp] inherits them.  The
    enumerations [Order] and [Tags] of [redgifs/enums.py] are parameters: a
    member has a [value], which is the token sent. *)

Class Enums := {
  Order : Type;
  Order_value : Order -> string;
  Tags : Type;
  Tags_value : Tags -> string
}.

(** [sep.join(l)] *)
Fixpoint str_join (sep : string) (l : list string) : string :=
  match l with
  | [] => EmptyString
  | [s] => s
  | s :: l' => s ++ sep ++ str_join sep l'
  end.

Section Methods.
Context `{N : Enums}.

(** [get_tags] takes [**params] and does not pass them on. *)
Definition get_tags (self_request : Route.t -> kwargs_t -> M pyobject)
    (params : kwargs_t) : M pyobject :=
  r <- lift (Route.__init__ "GET" "/v1/tags" ∅) ;;
  self_request r [].

(** [search_text] is a [str] or a member of [Tags]; what [Route] makes of a
    member depends on the class [Tags], and is left out. *)
Definition search (self_request : Route.t -> kwargs_t -> M pyobject)
    (search_text : string + Tags) (order : Order) (count page : Z)
    (params : kwargs_t) : M pyobject :=
  match search_text with
  | inl text =>
      r <- lift (Route.__init__ "GET"
                   "/v2/gifs/search?search_text={search_text}&order={order}&count={count}&page={page}"
                   {[ "search_text" := VStr text; "order" := VStr (Order_value order);
                      "count" := VInt count; "page" := VInt page ]}) ;;
      self_request r params
  | inr _ => lift Unmodelled
  end.

Definition search_image (self_request : Route.t -> kwargs_t -> M pyobject)
    (search_text : string + Tags) (order : Order) (count page : Z)
    (params : kwargs_t) : M pyobject :=
  match search_text with
  | inl text =>
      r <- lift (Route.__init__ "GET"
                   "/v2/gifs/search?search_text={search_text}&order={order}&count={count}&page={page}&type=i"
                   {[ "search_text" := VStr text; "order" := VStr (Order_value order);
                      "count" := VInt count; "page" := VInt page ]}) ;;
      self_request r params
  | inr _ => lift Unmodelled
  end.

Fixpoint all_members (tags : list (string + Tags)) : option (list Tags) :=
  match tags with
  | [] => Some []
  | inr t :: tags' => option_map (cons t) (all_members tags')
  | inl _ :: _ => None
  end.

Fixpoint all_strings (tags : list (string + Tags)) : option (list string) :=
  match tags with
  | [] => Some []
  | inl s :: tags' => option_map (cons s) (all_strings tags')
  | inr _ :: _ => None
  end.

(** [','.join(t.value for t in tags) if isinstance(tags[0], Tags) else
    ','.join(t for t in tags)], for a list that is not empty.  A list that
    mixes strings and members makes one of the two joins fail, in a way
    that depends on the class [Tags]; it is left out. *)
Definition joined_tags (tags : list (string + Tags)) : outcome string :=
  match tags with
  | inr _ :: _ =>
      match all_members tags with
      | Some ts => Return (str_join "," (map Tags_value ts))
      | None => Unmodelled
      end
  | _ =>
      match all_strings tags with
      | Some ss => Return (str_join "," ss)
      | None => Unmodelled
      end
  end.

Definition search_creators (self_request : Route.t -> kwargs_t -> M pyobject)
    (page : Z) (order : Order) (verified : bool)
    (tags : option (list (string + Tags))) (params : kwargs_t) : M pyobject :=
  r <- match tags with
       | Some (t :: tags') =>
           joined <- lift (joined_tags (t :: tags')) ;;
           lift (Route.__init__ "GET"
                   "/v1/creators/search?page={page}&order={order}&verified={verified}&tags={tags}"
                   {[ "page" := VInt page; "order" := VStr (Order_value order);
                      "verified" := VBool verified; "tags" := VStr joined ]})
       | _ =>
           lift (Route.__init__ "GET"
                   "/v1/creators/search?page={page}&order={order}&verified={verified}"
                   {[ "page" := VInt page; "order" := VStr (Order_value order);
                      "verified" := VBool verified ]})
       end ;;
  self_request r params.

End Methods.

(** ** More ways to read a template, a string and a run *)

(** The first placeholder of the template that has no parameter. *)
Fixpoint first_missing (parameters : gmap string value) (tpl : list segment)
  : option string :=
  match tpl with
  | [] => None
  | Text _ :: tpl' => first_missing parameters tpl'
  | Placeholder name :: tpl' =>
      match parameters !! name with
      | Some _ => first_missing parameters tpl'
      | None => Some name
      end
  end.

(** Every brace written twice, as [str.format] wants a literal brace. *)
Fixpoint double_braces (s : string) : string :=
  match s with
  | EmptyString => EmptyString
  | String c s' =>
      if is_brace c then String c (String c (double_braces s'))
      else String c (double_braces s')
  end.

(** How often [c] occurs in [s]. *)
Fixpoint count_char (c : ascii) (s : string) : nat :=
  match s with
  | EmptyString => 0
  | String d s' => (if Ascii.eqb c d then 1 else 0) + count_char c s'
  end.

Definition hex_value (c : ascii) : option N :=
  if is_digit c then Some (code c - 48)%N
  else if between 65 70 c then Some (code c - 55)%N
  else if between 97 102 c then Some (code c - 87)%N
  else None.

(** [urllib.parse.unquote_to_bytes]: [%XX] with two hexadecimal digits
    becomes the byte, everything else stays. *)
Fixpoint unquote (s : string) : string :=
  match s with
  | EmptyString => EmptyString
  | String c rest =>
      if Ascii.eqb c "%" then
        match rest with
        | String h (String l rest') =>
            match hex_value h, hex_value l with
            | Some a, Some b => String (ascii_of_N (16 * a + b)) (unquote rest')
            | _, _ => String c (unquote rest)
            end
        | _ => String c (unquote rest)
        end
      else String c (unquote rest)
  end.

(** What [quote] can write: safe characters, [/], and [%]. *)
Definition quoted_char (c : ascii) : bool := always_safe c || char_in c "/%".

(** What [str] of an integer can write: digits and the sign. *)
Definition int_char (c : ascii) : bool := is_digit c || Ascii.eqb c "-".

(** The last character of [s] is one of [chars]. *)
Fixpoint ends_in (chars s : string) : bool :=
  match s with
  | EmptyString => false
  | String c EmptyString => char_in c chars
  | String _ s' => ends_in chars s'
  end.

Definition starts_in (chars s : string) : bool :=
  match s with
  | EmptyString => false
  | String c _ => char_in c chars
  end.

Definition call_session (c : call) : object :=
  match c with
  | requests_request s _ _ _ _ _ _ _ | requests_get s _ _
  | aiohttp_request s _ _ _ _ _ _ | aiohttp_get s _ _ => s
  end.

Definition call_headers (c : call) : headers_t :=
  match c with
  | requests_request _ _ _ h _ _ _ _ | requests_get _ _ h
  | aiohttp_request _ _ _ h _ _ _ | aiohttp_get _ _ h => h
  end.

(** An event of a transport that keeps to its session and headers: a call
    through [session] with [headers], or a write; no session is created or
    closed. *)
Definition keeps_to (session : object) (headers : headers_t) (e : event) : Prop :=
  match e with
  | Call c => call_session c = session /\ call_headers c = headers
  | NewSession _ | CloseSession _ => False
  | _ => True
  end.

(** [w'] differs from [w] on the target [fp] at most: every other file and
    sink and the paths that cannot be opened are the same. *)
Definition same_but (fp : target) (w w' : World) : Prop :=
  denied w' = denied w /\
  match fp with
  | Path p => sinks w' = sinks w /\ forall q, q <> p -> files w' !! q = files w !! q
  | Sink id => files w' = files w /\ forall j, j <> id -> sinks w' !! j = sinks w !! j
  end.

(** ** Enumerations for the examples *)

Module SampleEnums.

Inductive order := trending | latest.

Inductive tag := outdoor | funny.

Definition enums : Enums :=
  {| Order := order;
     Order_value := fun o => match o with trending => "trending" | latest => "latest" end;
     Tags := tag;
     Tags_value := fun t => match t with outdoor => "Outdoor" | funny => "Funny Cats" end |}.

End SampleEnums.

(** The call that [HTTP.request] and [AsyncHttp.request] hand to the
    session. *)
Definition HTTP_request_call (self : HTTP.t) (route : Route.t) (kwargs : kwargs_t) : call :=
  requests_request (HTTP.__session self) (Route.method route) (Route.url route)
    (HTTP.headers self) (HTTP._proxy self) (HTTP._proxy_auth self) 60 kwargs.

Definition AsyncHttp_request_call (self : AsyncHttp.t) (route : Route.t)
    (kwargs : kwargs_t) : call :=
  aiohttp_request (AsyncHttp.__session self) (Route.method route) (Route.url route)
    (AsyncHttp.headers self) (AsyncHttp.proxy_argument self)
    (AsyncHttp._proxy_auth self) kwargs.

(** ** Route as the interpreter runs it

    [Route.__init__] above gives the attributes of the object that
    [Route(method, path, **parameters)] returns.  The statements of lines
    50 to 55 themselves run on a store of objects: they assign attributes
    of [self], and they read [self.BASE] and [self.path], which Python
    looks up in the instance first and in the class next. *)

Module Instance.

(** The world, and the instances of [Route] there are, each with its
    attributes (its [__dict__]). *)
Record Store := {
  world : World;
  instances : gmap nat (gmap string string)
}.

Definition Py (A : Type) : Type := Store -> outcome A * Store.

Definition ret {A} (a : A) : Py A := fun s => (Return a, s).

Definition lift {A} (o : outcome A) : Py A := fun s => (o, s).

Definition bind {A B} (c : Py A) (k : A -> Py B) : Py B :=
  fun s =>
    match c s with
    | (Return a, s') => k a s'
    | (Raise e, s') => (Raise e, s')
    | (Unmodelled, s') => (Unmodelled, s')
    end.

Notation "x <~ c ;; k" := (bind c (fun x => k))
  (at level 100, c at next level, right associativity).
Notation "c ;;; k" := (bind c (fun _ => k))
  (at level 100, right associativity).

(** [object.__new__(Route)]: an instance that did not exist, without
    attributes. *)
Definition __new__ : Py nat :=
  fun s =>
    let self := fresh (dom (instances s)) in
    (Return self, {| world := world s; instances := <[self := ∅]> (instances s) |}).

(** [self.name = v] *)
Definition setattr (self : nat) (name v : string) : Py unit :=
  fun s =>
    match instances s !! self with
    | Some d =>
        (Return tt,
         {| world := world s; instances := <[self := <[name := v]> d]> (instances s) |})
    | None => (Unmodelled, s)
    end.

(** The attributes of the class [Route]. *)
Definition class_dict : gmap string string := {[ "BASE" := Route.BASE ]}.

(** [self.name]: the attribute of the instance when it has one, that of
    the class otherwise.  (When neither has it Python raises
    [AttributeError], which lines 50 to 55 cannot meet.) *)
Definition getattr (self : nat) (name : string) : Py string :=
  fun s =>
    match instances s !! self with
    | Some d =>
        match d !! name with
        | Some v => (Return v, s)
        | None =>
            match class_dict !! name with
            | Some v => (Return v, s)
            | None => (Unmodelled, s)
            end
        end
    | None => (Unmodelled, s)
    end.

(** Lines 50 to 55, statement by statement. *)
Definition __init__ (self : nat) (method path : string)
    (parameters : gmap string value) : Py unit :=
  setattr self "method" method ;;;
  setattr self "path" path ;;;
  base <~ getattr self "BASE" ;;
  p <~ getattr self "path" ;;
  let url := base ++ p in
  url <~ (if bool_decide (parameters = ∅) then ret url
          else lift (format_map url (Route.quoted parameters))) ;;
  setattr self "url" url.

(** The call [Route(method, path, **parameters)]: a new instance, then
    [__init__] on it. *)
Definition __call__ (method path : string) (parameters : gmap string value) : Py nat :=
  self <~ __new__ ;;
  __init__ self method path parameters ;;;
  ret self.

(** What the caller holds after the call: the attributes [method], [path]
    and [url] of the instance returned, or the exception. *)
Definition result (r : outcome nat * Store) : outcome Route.t :=
  match r with
  | (Return self, s) =>
      match instances s !! self with
      | Some d =>
          match d !! "method", d !! "path", d !! "url" with
          | Some m, Some p, Some u =>
              Return {| Route.method := m; Route.path := p; Route.url := u |}
          | _, _, _ => Unmodelled
          end
      | None => Unmodelled
      end
  | (Raise e, _) => Raise e
  | (Unmodelled, _) => Unmodelled
  end.

End Instance.

(** ** Keyword arguments that every session takes

    Keywords that both [requests.Session.request] and
    [aiohttp.ClientSession.request] have in their signature and that
    [request] does not pass itself. *)
Definition plain_keywords : list string :=
  ["params"; "data"; "json"; "cookies"; "allow_redirects"].

Definition plain (kwargs : kwargs_t) : bool :=
  forallb (fun kv => existsb (String.eqb (fst kv)) plain_keywords) kwargs.

(** ** A gateway for the examples

    It answers every call with status 502 and an HTML page. *)

Module Gateway.

Definition page : Response :=
  {| status_code := 502; content := "<html>Bad Gateway</html>"; json_body := None |}.

Definition externals : Externals :=
  {| yarl_URL := Sample.URL;
     REDGIFS_THUMBS_RE := Sample.thumbs_re;
     __version__ := "1.0.0";
     sys_version := "3.8.10 (default)";
     respond := fun _ _ => Some page |}.

Definition route : Route.t :=
  {| Route.method := "GET"; Route.path := "/v1/tags";
     Route.url := "https://api.redgifs.com/v1/tags" |}.

End Gateway.

(** * Properties *)

(** ** Strings *)

Lemma append_assoc (a b c : string) : (a ++ b) ++ c = a ++ b ++ c.
Proof. induction a as [|x a IH]; simpl; [reflexivity | now rewrite IH]. Qed.

Lemma append_empty_r (a : string) : a ++ EmptyString = a.
Proof. induction a as [|x a IH]; simpl; [reflexivity | now rewrite IH]. Qed.

Lemma all_chars_app p (a b : string) :
  all_chars p (a ++ b) = all_chars p a && all_chars p b.
Proof.
  induction a as [|x a IH]; simpl; [reflexivity |].
  rewrite IH. now rewrite andb_assoc.
Qed.

Lemma brace_free_app (a b : string) :
  brace_free (a ++ b) = brace_free a && brace_free b.
Proof. apply all_chars_app. Qed.

(** Case analysis over the 256 characters. *)
Ltac each_char c := destruct c as [[] [] [] [] [] [] [] []].

Lemma name_char_plain (c : ascii) :
  is_name_char c = true ->
  Ascii.eqb c "{" = false /\ Ascii.eqb c "}" = false /\ char_in c "!:.[" = false.
Proof. each_char c; vm_compute; intros; try discriminate; repeat split. Qed.

Lemma name_start_not_digit (c : ascii) :
  is_name_start c = true -> is_digit c = false.
Proof. each_char c; vm_compute; intros; try discriminate; reflexivity. Qed.

Lemma name_start_name_char (c : ascii) :
  is_name_start c = true -> is_name_char c = true.
Proof. unfold is_name_char. now intros ->. Qed.

Lemma all_chars_char_in p (c : ascii) (s : string) :
  all_chars p s = true -> char_in c s = true -> p c = true.
Proof.
  induction s as [|d s IH]; simpl; [discriminate |].
  intros [Hd Hs]%andb_true_iff [Heq | Hin]%orb_true_iff; [| now apply IH].
  apply Ascii.eqb_eq in Heq. now subst.
Qed.

Lemma always_safe_not_brace (c : ascii) : always_safe c = true -> is_brace c = false.
Proof. each_char c; vm_compute; congruence. Qed.

Lemma quoter_brace_free (safe : string) (c : ascii) :
  brace_free safe = true -> brace_free (quoter safe c) = true.
Proof.
  intros Hsafe. unfold quoter.
  destruct (always_safe c) eqn:Hc; cbn [orb].
  - unfold brace_free. cbn [all_chars].
    now rewrite (always_safe_not_brace c Hc).
  - destruct (char_in c safe) eqn:Hin.
    + unfold brace_free. cbn [all_chars].
      now rewrite (all_chars_char_in _ c safe Hsafe Hin).
    + clear. each_char c; reflexivity.
Qed.

Lemma quote_brace_free (s : string) : brace_free (quote s) = true.
Proof.
  unfold quote. induction s as [|c s IH]; simpl; [reflexivity |].
  rewrite brace_free_app, IH, quoter_brace_free; reflexivity.
Qed.

Lemma string_of_uint_brace_free (d : Decimal.uint) :
  brace_free (NilEmpty.string_of_uint d) = true.
Proof. induction d; simpl; auto. Qed.

Lemma string_of_uint_zero_brace_free (d : Decimal.uint) :
  brace_free (NilZero.string_of_uint d) = true.
Proof.
  destruct d; [reflexivity | ..];
    match goal with
    | |- brace_free (NilZero.string_of_uint ?x) = true =>
        exact (string_of_uint_brace_free x)
    end.
Qed.

Lemma str_of_int_brace_free (z : Z) : brace_free (str_of_int z) = true.
Proof.
  unfold str_of_int, NilZero.string_of_int.
  destruct (Z.to_int z) as [d | d].
  - apply string_of_uint_zero_brace_free.
  - change (brace_free (NilZero.string_of_uint d) = true).
    apply string_of_uint_zero_brace_free.
Qed.

Lemma value_text_brace_free (v : value) : brace_free (value_text v) = true.
Proof.
  destruct v as [s | z | []]; simpl;
    auto using quote_brace_free, str_of_int_brace_free.
Qed.

(** ** The scanner on well-formed templates *)

Lemma emit_empty (o : outcome string) : emit EmptyString o = o.
Proof. now destruct o. Qed.

Lemma emit_emit (a b : string) (o : outcome string) :
  emit a (emit b o) = emit (a ++ b) o.
Proof. destruct o; simpl; [now rewrite append_assoc | reflexivity..]. Qed.

Lemma format_scan_text mapping (s rest : string) :
  brace_free s = true ->
  format_scan mapping InText (s ++ rest) = emit s (format_scan mapping InText rest).
Proof.
  induction s as [|c s IH]; simpl; intros Hs.
  - now rewrite emit_empty.
  - apply andb_true_iff in Hs as [Hc Hs].
    unfold is_brace in Hc. apply negb_true_iff, orb_false_iff in Hc as [-> ->].
    rewrite (IH Hs). apply emit_emit.
Qed.

Lemma format_scan_name mapping (acc name rest : string) :
  all_chars is_name_char name = true ->
  format_scan mapping (InField acc) (name ++ String "}" rest) =
  outcome_bind (field_text mapping (acc ++ name))
    (fun t => emit t (format_scan mapping InText rest)).
Proof.
  revert acc. induction name as [|c name IH]; intros acc Hname.
  - now rewrite append_empty_r.
  - simpl in Hname. apply andb_true_iff in Hname as [Hc Hname].
    destruct (name_char_plain c Hc) as (H1 & H2 & H3).
    cbn [append format_scan]. rewrite H1, H2, H3.
    rewrite (IH _ Hname), append_assoc. reflexivity.
Qed.

Lemma format_scan_placeholder mapping (name rest : string) :
  is_identifier name = true ->
  format_scan mapping InText (String "{" (name ++ String "}" rest)) =
  outcome_bind (field_text mapping name)
    (fun t => emit t (format_scan mapping InText rest)).
Proof.
  intros Hid. destruct name as [|c name]; [discriminate |].
  simpl in Hid. apply andb_true_iff in Hid as [Hc Hname].
  pose proof (name_start_name_char c Hc) as Hc'.
  destruct (name_char_plain c Hc') as (H1 & H2 & H3).
  cbn [append format_scan]. cbn [Ascii.eqb Bool.eqb]. rewrite H1, H2, H3.
  rewrite format_scan_name by assumption. reflexivity.
Qed.

Lemma field_text_identifier mapping (name : string) :
  is_identifier name = true ->
  field_text mapping name =
  match mapping !! name with
  | Some v => Return (format_value v)
  | None => Raise (KeyError name)
  end.
Proof.
  intros Hid. unfold field_text. destruct name as [|c name]; [discriminate |].
  simpl in Hid. apply andb_true_iff in Hid as [Hc _].
  simpl. now rewrite (name_start_not_digit c Hc).
Qed.

Lemma field_text_quoted (parameters : gmap string value) (name : string) (v : value) :
  is_identifier name = true ->
  parameters !! name = Some v ->
  field_text (Route.quoted parameters) name = Return (value_text v).
Proof.
  intros Hid Hv. rewrite field_text_identifier by assumption.
  unfold Route.quoted. rewrite lookup_fmap, Hv.
  now destruct v as [s | z | []].
Qed.

(** Resolving a well-formed template whose placeholders all have a
    parameter. *)
Lemma format_map_template (parameters : gmap string value) (tpl : list segment) :
  template_ok tpl = true ->
  (forall name, In name (placeholders tpl) -> is_Some (parameters !! name)) ->
  format_map (template_text tpl) (Route.quoted parameters) =
  Return (substituted tpl parameters).
Proof.
  unfold format_map.
  induction tpl as [|[s | name] tpl IH]; intros Hok Hcov.
  - reflexivity.
  - simpl in Hok. apply andb_true_iff in Hok as [Hs Hok].
    cbn [template_text substituted].
    rewrite format_scan_text by assumption.
    now rewrite IH.
  - simpl in Hok. apply andb_true_iff in Hok as [Hid Hok].
    destruct (Hcov name) as [v Hv]; [now left |].
    cbn [template_text substituted]. rewrite Hv.
    change ("{" ++ name ++ "}" ++ template_text tpl)
      with (String "{" (name ++ String "}" (template_text tpl))).
    rewrite format_scan_placeholder by assumption.
    rewrite (field_text_quoted _ _ _ Hid Hv). cbn [outcome_bind].
    rewrite IH; [reflexivity | assumption |].
    intros n Hn. apply Hcov. now right.
Qed.

Lemma substituted_no_placeholder (parameters : gmap string value) (tpl : list segment) :
  placeholders tpl = [] -> substituted tpl parameters = template_text tpl.
Proof.
  induction tpl as [|[s | name] tpl IH]; simpl; intros Hp;
    [reflexivity | now rewrite IH | discriminate].
Qed.

Lemma substituted_brace_free (parameters : gmap string value) (tpl : list segment) :
  template_ok tpl = true -> brace_free (substituted tpl parameters) = true.
Proof.
  induction tpl as [|[s | name] tpl IH]; simpl; intros Hok.
  - reflexivity.
  - apply andb_true_iff in Hok as [Hs Hok]. now rewrite brace_free_app, Hs, IH.
  - apply andb_true_iff in Hok as [_ Hok]. rewrite brace_free_app, IH by assumption.
    destruct (parameters !! name); [| reflexivity].
    now rewrite value_text_brace_free.
Qed.

Lemma covers_spec (parameters : gmap string value) (tpl : list segment) :
  covers parameters tpl = true ->
  forall name, In name (placeholders tpl) <-> is_Some (parameters !! name).
Proof.
  unfold covers. intros Hc%bool_decide_eq_true name.
  rewrite <- elem_of_dom, Hc, elem_of_list_to_set, list_elem_of_In.
  reflexivity.
Qed.

(** ** Route *)

(** C1.  For every method, every well-formed path template (text without
    braces and [{name}] placeholders) and every parameter mapping whose
    keys are exactly the placeholders, [Route] resolves to the origin
    [https://api.redgifs.com] followed by the template in which each
    placeholder is replaced by the text of its parameter (percent-encoded
    if textual, the literal otherwise), and the URL has no brace. *)
Theorem Route_resolves (method : string) (tpl : list segment)
    (parameters : gmap string value) :
  template_ok tpl = true ->
  covers parameters tpl = true ->
  Route.__init__ method (template_text tpl) parameters =
    Return {| Route.method := method;
              Route.path := template_text tpl;
              Route.url := "https://api.redgifs.com" ++ substituted tpl parameters |}
  /\ brace_free ("https://api.redgifs.com" ++ substituted tpl parameters) = true.
Proof.
  intros Hok Hcov. split.
  - unfold Route.__init__. case_bool_decide as Hempty.
    + subst parameters. cbn [outcome_bind]. unfold Route.BASE.
      rewrite substituted_no_placeholder; [reflexivity |].
      destruct (placeholders tpl) as [|name l] eqn:Hp; [reflexivity |].
      exfalso. destruct (proj1 (covers_spec _ _ Hcov name)) as [v Hv].
      * rewrite Hp. now left.
      * now rewrite lookup_empty in Hv.
    + change (Route.BASE ++ template_text tpl)
        with (template_text (Text Route.BASE :: tpl)).
      rewrite format_map_template.
      * reflexivity.
      * change (brace_free Route.BASE && template_ok tpl = true). now rewrite Hok.
      * intros name Hn. now apply (covers_spec _ _ Hcov).
  - rewrite brace_free_app. now rewrite substituted_brace_free.
Qed.

(** The request of [get_gif]: [GET /v2/gifs/{id}] with [id = abc123]. *)
Lemma Route_resolves_witness :
  template_ok [Text "/v2/gifs/"; Placeholder "id"] = true /\
  covers {[ "id" := VStr "abc123" ]} [Text "/v2/gifs/"; Placeholder "id"] = true /\
  Route.__init__ "GET" "/v2/gifs/{id}" {[ "id" := VStr "abc123" ]} =
    Return {| Route.method := "GET";
              Route.path := "/v2/gifs/{id}";
              Route.url := "https://api.redgifs.com/v2/gifs/abc123" |}
  /\ brace_free "https://api.redgifs.com/v2/gifs/abc123" = true.
Proof.
  split; [reflexivity |]. split; [vm_compute; reflexivity |].
  exact (Route_resolves "GET" [Text "/v2/gifs/"; Placeholder "id"]
           {[ "id" := VStr "abc123" ]} eq_refl eq_refl).
Defined.

(** ** quote and percent-encoding *)

Lemma quoter_slash (c : ascii) :
  quoter "/" c =
  if Ascii.eqb c "/" then "/" else percent_encode (String c EmptyString).
Proof. each_char c; reflexivity. Qed.

Lemma quote_percent_encode_path (s : string) : quote s = percent_encode_path s.
Proof.
  unfold quote. induction s as [|c s IH]; [reflexivity |].
  cbn [quote_from_bytes percent_encode_path]. now rewrite quoter_slash, IH.
Qed.

Lemma value_text_inserted (v : value) : value_text v = inserted v.
Proof. destruct v as [s | z | []]; simpl; auto using quote_percent_encode_path. Qed.

Lemma quoter_reserved (c : ascii) :
  all_chars (fun d => negb (is_reserved d) || Ascii.eqb d "/") (quoter "/" c) = true.
Proof. each_char c; reflexivity. Qed.

Lemma quote_reserved (s : string) :
  all_chars (fun d => negb (is_reserved d) || Ascii.eqb d "/") (quote s) = true.
Proof.
  unfold quote. induction s as [|c s IH]; [reflexivity |].
  cbn [quote_from_bytes]. now rewrite all_chars_app, quoter_reserved, IH.
Qed.

(** Resolving a template around one of its placeholders. *)
Lemma Route_placeholder (method pre name post : string)
    (parameters : gmap string value) (v : value) :
  brace_free pre = true ->
  is_identifier name = true ->
  parameters !! name = Some v ->
  Route.__init__ method (pre ++ "{" ++ name ++ "}" ++ post) parameters =
    outcome_bind (format_map post (Route.quoted parameters))
      (fun rest =>
         Return {| Route.method := method;
                   Route.path := pre ++ "{" ++ name ++ "}" ++ post;
                   Route.url := "https://api.redgifs.com" ++ pre ++ value_text v ++ rest |}).
Proof.
  intros Hpre Hid Hv.
  unfold Route.__init__. case_bool_decide as Hempty.
  { subst parameters. now rewrite lookup_empty in Hv. }
  unfold format_map, Route.BASE.
  rewrite <- (append_assoc "https://api.redgifs.com" pre).
  rewrite format_scan_text
    by (rewrite brace_free_app, Hpre; reflexivity).
  change ("{" ++ name ++ "}" ++ post) with (String "{" (name ++ String "}" post)).
  rewrite format_scan_placeholder by assumption.
  rewrite (field_text_quoted _ _ _ Hid Hv).
  cbn [outcome_bind]. rewrite emit_emit.
  destruct (format_scan (Route.quoted parameters) InText post) as [rest | e |];
    cbn [emit outcome_bind]; [| reflexivity..].
  now rewrite !append_assoc.
Qed.

(** The route of [get_gif]. *)
Lemma Route_get_gif (id : string) :
  Route.__init__ "GET" "/v2/gifs/{id}" {[ "id" := VStr id ]} =
  Return {| Route.method := "GET";
            Route.path := "/v2/gifs/{id}";
            Route.url := "https://api.redgifs.com/v2/gifs/" ++ quote id |}.
Proof.
  rewrite (Route_placeholder "GET" "/v2/gifs/" "id" EmptyString _ (VStr id));
    try reflexivity.
  cbn [format_map format_scan outcome_bind value_text].
  rewrite (append_empty_r (quote id)). reflexivity.
Qed.

(** C4, as the code has it.  A parameter of a placeholder is inserted as
    follows: a textual value is percent-encoded by [quote], which escapes
    every byte other than letters, digits, [_.-~] and [/], so that of the
    reserved characters only [/] is left as it is; an integer or a boolean
    is inserted as Python prints it, unescaped. *)
Theorem Route_inserts_quoted (method pre name post : string)
    (parameters : gmap string value) (v : value) :
  brace_free pre = true ->
  is_identifier name = true ->
  parameters !! name = Some v ->
  Route.__init__ method (pre ++ "{" ++ name ++ "}" ++ post) parameters =
    outcome_bind (format_map post (Route.quoted parameters))
      (fun rest =>
         Return {| Route.method := method;
                   Route.path := pre ++ "{" ++ name ++ "}" ++ post;
                   Route.url := "https://api.redgifs.com" ++ pre ++ inserted v ++ rest |})
  /\ (forall s, v = VStr s ->
        all_chars (fun d => negb (is_reserved d) || Ascii.eqb d "/") (inserted v) = true).
Proof.
  intros Hpre Hid Hv. split.
  - rewrite <- value_text_inserted. now apply Route_placeholder.
  - intros s ->. cbn [inserted]. rewrite <- quote_percent_encode_path.
    apply quote_reserved.
Qed.

Lemma Route_inserts_quoted_witness :
  brace_free "/v2/gifs/" = true /\
  is_identifier "id" = true /\
  ({[ "id" := VStr "a b/c?d" ]} : gmap string value) !! "id" = Some (VStr "a b/c?d") /\
  Route.__init__ "GET" "/v2/gifs/{id}" {[ "id" := VStr "a b/c?d" ]} =
    Return {| Route.method := "GET";
              Route.path := "/v2/gifs/{id}";
              Route.url := "https://api.redgifs.com/v2/gifs/a%20b/c%3Fd" |}.
Proof.
  split; [reflexivity |]. split; [reflexivity |]. split; [reflexivity |].
  exact (proj1 (Route_inserts_quoted "GET" "/v2/gifs/" "id" EmptyString
                  {[ "id" := VStr "a b/c?d" ]} (VStr "a b/c?d")
                  eq_refl eq_refl eq_refl)).
Defined.

(** C4, as stated, fails on a value with a slash: [/] is reserved, and
    percent-encoding with the reserved characters escaped turns [a/b] into
    [a%2Fb], but [Route] inserts [a/b]. *)
Lemma Route_keeps_slash :
  is_reserved "/" = true /\
  percent_encode "a/b" = "a%2Fb" /\
  Route.__init__ "GET" "/v2/gifs/{id}" {[ "id" := VStr "a/b" ]} =
    Return {| Route.method := "GET";
              Route.path := "/v2/gifs/{id}";
              Route.url := "https://api.redgifs.com/v2/gifs/a/b" |} /\
  Route.__init__ "GET" "/v2/gifs/{id}" {[ "id" := VStr "a/b" ]} <>
    Return {| Route.method := "GET";
              Route.path := "/v2/gifs/{id}";
              Route.url := "https://api.redgifs.com/v2/gifs/" ++ percent_encode "a/b" |}.
Proof.
  split; [reflexivity |]. split; [reflexivity |]. split; [reflexivity |].
  vm_compute. discriminate.
Qed.

(** ** Route has no hidden state *)

(** The run of [Route(method, path, **parameters)] in a store: the new
    instance gets what [Route.__init__] computes from the arguments, and
    nothing else of the store changes. *)
Lemma Instance_call_run (method path : string) (parameters : gmap string value)
    (s : Instance.Store) :
  let self := fresh (dom (Instance.instances s)) in
  let started : gmap string string := <["path" := path]> (<["method" := method]> ∅) in
  Instance.__call__ method path parameters s =
  match Route.__init__ method path parameters with
  | Return r =>
      (Return self,
       {| Instance.world := Instance.world s;
          Instance.instances :=
            <[self := <["url" := Route.url r]> started]> (Instance.instances s) |})
  | Raise e =>
      (Raise e,
       {| Instance.world := Instance.world s;
          Instance.instances := <[self := started]> (Instance.instances s) |})
  | Unmodelled =>
      (Unmodelled,
       {| Instance.world := Instance.world s;
          Instance.instances := <[self := started]> (Instance.instances s) |})
  end.
Proof.
  intros self started.
  unfold Instance.__call__, Instance.__init__, Instance.__new__, Instance.bind,
    Instance.setattr, Instance.getattr, Instance.ret, Instance.lift, Route.__init__.
  fold self. unfold Instance.class_dict.
  repeat (progress cbn [Instance.instances Instance.world]
          || rewrite lookup_insert_eq || rewrite insert_insert_eq
          || (rewrite lookup_insert_ne by discriminate)
          || rewrite lookup_empty || rewrite lookup_singleton_eq).
  destruct (bool_decide (parameters = ∅)).
  - cbn. rewrite !lookup_insert_eq, !insert_insert_eq. reflexivity.
  - destruct (format_map _ _) as [u | e |]; cbn; [| reflexivity ..].
    rewrite !lookup_insert_eq, !insert_insert_eq. reflexivity.
Qed.

Lemma fresh_instance (s : Instance.Store) :
  Instance.instances s !! fresh (dom (Instance.instances s)) = None.
Proof. apply not_elem_of_dom, is_fresh. Qed.

Lemma Instance_call_result (method path : string) (parameters : gmap string value)
    (s : Instance.Store) :
  Instance.result (Instance.__call__ method path parameters s)
  = Route.__init__ method path parameters.
Proof.
  rewrite Instance_call_run.
  assert (exists o,
            outcome_bind o
              (fun url => Return {| Route.method := method; Route.path := path;
                                    Route.url := url |})
            = Route.__init__ method path parameters) as [o Ho]
    by (eexists; reflexivity).
  rewrite <- Ho. destruct o as [u | e |]; cbn; [| reflexivity ..].
  rewrite lookup_insert_eq. reflexivity.
Qed.

(** The statements of [__init__] do read the store: run on an instance
    that has an attribute [BASE] of its own, they take that one.  What
    follows rests on the instance being new. *)
Example Instance_init_reads_self :
  let s := {| Instance.world := Sample.world;
              Instance.instances := {[ 0 := {[ "BASE" := "http://localhost" ]} ]} |} in
  Instance.result
    (Instance.bind (Instance.__init__ 0 "GET" "/v1/tags" ∅) (fun _ => Instance.ret 0) s)
  = Return {| Route.method := "GET"; Route.path := "/v1/tags";
              Route.url := "http://localhost/v1/tags" |}.
Proof. vm_compute. reflexivity. Qed.

(** C9.  [Route(method, path, **parameters)], run statement by statement
    in any store of objects and any world, hands its caller the method,
    the path and the URL that are a function of the three arguments (and
    of the class constant [BASE]) alone; it leaves the world as it was,
    so it does no input or output, and it changes no instance that
    existed.  Resolving the same arguments in two stores, whatever
    happened in between, gives the same URL. *)
Theorem Route_pure (method path : string) (parameters : gmap string value)
    (s : Instance.Store) :
  let run := Instance.__call__ method path parameters s in
  Instance.result run = Route.__init__ method path parameters /\
  Instance.world (snd run) = Instance.world s /\
  (forall l d, Instance.instances s !! l = Some d ->
               Instance.instances (snd run) !! l = Some d) /\
  (forall s', Instance.result (Instance.__call__ method path parameters s')
              = Instance.result run).
Proof.
  intros run. split; [apply Instance_call_result |]. split; [| split].
  - subst run. rewrite Instance_call_run.
    now destruct (Route.__init__ method path parameters).
  - intros l d Hl. subst run. rewrite Instance_call_run.
    assert (l <> fresh (dom (Instance.instances s))) as Hne.
    { intros ->. rewrite fresh_instance in Hl. discriminate. }
    destruct (Route.__init__ method path parameters); cbn;
      now rewrite lookup_insert_ne.
  - intros s'. subst run. now rewrite !Instance_call_result.
Qed.

(** ** request *)

Section Request.
Context `{E : Externals}.

Lemma HTTP_request_run (self : HTTP.t) (route : Route.t) (kwargs : kwargs_t)
    (w : World) (r : Response) (js : json) :
  clashes ["method"; "url"; "headers"; "proxies"; "auth"; "timeout"] kwargs = false ->
  respond (events w)
    (requests_request (HTTP.__session self) (Route.method route) (Route.url route)
       (HTTP.headers self) (HTTP._proxy self) (HTTP._proxy_auth self) 60 kwargs)
    = Some r ->
  json_body r = Some js ->
  fst (HTTP.request self route kwargs w) =
  if (status_code r =? 200)%Z then Return js else Raise (HTTPException r js).
Proof.
  intros Hk Hr Hjs.
  unfold HTTP.request, check_kwargs, bind, perform, ret, raise.
  rewrite Hk. cbn. rewrite Hr, Hjs.
  now destruct (status_code r =? 200)%Z.
Qed.

Lemma AsyncHttp_request_run (self : AsyncHttp.t) (route : Route.t) (kwargs : kwargs_t)
    (w : World) (r : Response) (js : json) :
  clashes ["method"; "url"; "headers"; "proxy"; "proxy_auth"] kwargs = false ->
  respond (events w)
    (aiohttp_request (AsyncHttp.__session self) (Route.method route) (Route.url route)
       (AsyncHttp.headers self) (AsyncHttp.proxy_argument self)
       (AsyncHttp._proxy_auth self) kwargs)
    = Some r ->
  json_body r = Some js ->
  fst (await (AsyncHttp.request self route kwargs) w) =
  if (status_code r =? 200)%Z then Return js else Raise (HTTPException r js).
Proof.
  intros Hk Hr Hjs.
  unfold await, AsyncHttp.request, check_kwargs, bind, perform, ret, raise.
  rewrite Hk. cbn. rewrite Hr, Hjs.
  now destruct (status_code r =? 200)%Z.
Qed.

Lemma gated_on_200_intro (r : Response) (js : json) :
  gated_on_200 r js
    (if (status_code r =? 200)%Z then Return js else Raise (HTTPException r js)).
Proof.
  unfold gated_on_200. destruct (Z.eqb_spec (status_code r) 200) as [Heq | Hne].
  - split; [reflexivity |]. split; [congruence |].
    split; [intros (r' & js' & [=]) | congruence].
  - split; [congruence |]. split; [reflexivity |].
    split; [now intros _ | intros _; eauto].
Qed.

End Request.

(** C3.  For a request of either transport that the server answers with a
    response [r] whose body parses to [js]: if the status is 200,
    [request] returns [js]; otherwise it raises [HTTPException(r, js)],
    which carries the response and the parsed body; and it raises an
    [HTTPException] exactly when the status is not 200. *)
Theorem request_gated_on_status `{E : Externals} (self : HTTP.t) (aself : AsyncHttp.t)
    (route : Route.t) (kwargs : kwargs_t) (w : World) (r : Response) (js : json) :
  json_body r = Some js ->
  (clashes ["method"; "url"; "headers"; "proxies"; "auth"; "timeout"] kwargs = false ->
   respond (events w)
     (requests_request (HTTP.__session self) (Route.method route) (Route.url route)
        (HTTP.headers self) (HTTP._proxy self) (HTTP._proxy_auth self) 60 kwargs)
     = Some r ->
   gated_on_200 r js (fst (HTTP.request self route kwargs w)))
  /\
  (clashes ["method"; "url"; "headers"; "proxy"; "proxy_auth"] kwargs = false ->
   respond (events w)
     (aiohttp_request (AsyncHttp.__session aself) (Route.method route) (Route.url route)
        (AsyncHttp.headers aself) (AsyncHttp.proxy_argument aself)
        (AsyncHttp._proxy_auth aself) kwargs)
     = Some r ->
   gated_on_200 r js (fst (await (AsyncHttp.request aself route kwargs) w))).
Proof.
  intros Hjs. split; intros Hk Hr.
  - rewrite (HTTP_request_run self route kwargs w r js Hk Hr Hjs).
    apply gated_on_200_intro.
  - rewrite (AsyncHttp_request_run aself route kwargs w r js Hk Hr Hjs).
    apply gated_on_200_intro.
Qed.

(** A lookup that the sample server answers with 404 and an error body. *)
Lemma request_gated_on_status_witness :
  let route := {| Route.method := "GET"; Route.path := "/v2/gifs/{id}";
                  Route.url := "https://api.redgifs.com/v2/gifs/nothing" |} in
  let r := Sample.lookup "https://api.redgifs.com/v2/gifs/nothing" in
  let js := JObj [("error", JStr "not found")] in
  json_body r = Some js /\
  fst (HTTP.request (E := Sample.externals) Sample.http route [] Sample.world)
    = Raise (HTTPException r js) /\
  fst (await (AsyncHttp.request (E := Sample.externals) Sample.async_http route []) Sample.world)
    = Raise (HTTPException r js).
Proof.
  intros route r js. split; [reflexivity |].
  destruct (request_gated_on_status (E := Sample.externals) Sample.http Sample.async_http
              route [] Sample.world r js eq_refl) as [Hs Ha].
  split.
  - apply (Hs eq_refl eq_refl). discriminate.
  - apply (Ha eq_refl eq_refl). discriminate.
Defined.

(** The body is parsed before the status is looked at: when it does not
    parse, [request] raises the error of [json()], whatever the status. *)
Lemma request_unparsed_body `{E : Externals} (self : HTTP.t) (aself : AsyncHttp.t)
    (route : Route.t) (w : World) (r : Response) :
  json_body r = None ->
  (respond (events w)
     (requests_request (HTTP.__session self) (Route.method route) (Route.url route)
        (HTTP.headers self) (HTTP._proxy self) (HTTP._proxy_auth self) 60 [])
     = Some r ->
   fst (HTTP.request self route [] w) = Raise JSONDecodeError)
  /\
  (respond (events w)
     (aiohttp_request (AsyncHttp.__session aself) (Route.method route) (Route.url route)
        (AsyncHttp.headers aself) (AsyncHttp.proxy_argument aself)
        (AsyncHttp._proxy_auth aself) [])
     = Some r ->
   fst (await (AsyncHttp.request aself route []) w) = Raise JSONDecodeError).
Proof.
  intros Hjs. split; intros Hr.
  - unfold HTTP.request, check_kwargs, bind, perform, ret, raise. cbn.
    now rewrite Hr, Hjs.
  - unfold await, AsyncHttp.request, check_kwargs, bind, perform, ret, raise. cbn.
    now rewrite Hr, Hjs.
Qed.

(** C3, as stated, fails on an answer whose body is not JSON.  A gateway
    answers with status 502 and an HTML page: the status is not 200, and
    [request] raises the error of [json()], not an [HTTPException]; no
    parsed body makes the run what the claim says.  Both transports. *)
Lemma request_bad_gateway :
  status_code Gateway.page <> 200%Z /\
  fst (HTTP.request (E := Gateway.externals) Sample.http Gateway.route [] Sample.world)
    = Raise JSONDecodeError /\
  fst (await (AsyncHttp.request (E := Gateway.externals) Sample.async_http Gateway.route [])
         Sample.world)
    = Raise JSONDecodeError /\
  ~ (exists js,
       gated_on_200 Gateway.page js
         (fst (HTTP.request (E := Gateway.externals) Sample.http Gateway.route []
                 Sample.world))) /\
  ~ (exists js,
       gated_on_200 Gateway.page js
         (fst (await (AsyncHttp.request (E := Gateway.externals) Sample.async_http
                        Gateway.route []) Sample.world))).
Proof.
  destruct (request_unparsed_body (E := Gateway.externals) Sample.http Sample.async_http
              Gateway.route Sample.world Gateway.page eq_refl) as [Hs Ha].
  specialize (Hs eq_refl). specialize (Ha eq_refl).
  split; [discriminate |]. split; [exact Hs |]. split; [exact Ha |].
  split; intros (js & _ & Hne & _); specialize (Hne ltac:(discriminate)).
  - rewrite Hs in Hne. discriminate.
  - rewrite Ha in Hne. discriminate.
Qed.

(** ** Construction *)

(** C7.  A [session] that is not of the class the transport expects makes
    the constructor raise [RuntimeError] at once: the world is as before,
    so nothing was sent.  Without a [session] the constructor creates one,
    and the transport it returns holds it. *)
Theorem constructor_checks_session `{E : Externals} (o : object)
    (proxy : option string) (proxy_auth : option ProxyAuth) (w : World) :
  (is_requests_Session o = false ->
   HTTP.__init__ (Some o) proxy proxy_auth w =
     (Raise (RuntimeError "session is not of type requests.Session"), w))
  /\
  (is_aiohttp_ClientSession o = false ->
   AsyncHttp.__init__ (Some o) proxy proxy_auth w =
     (Raise (RuntimeError "session is not of type aiohttp.ClientSession"), w))
  /\
  (forall u, proxy_url proxy = Return u ->
   exists self,
     HTTP.__init__ None proxy proxy_auth w =
       (Return self, with_new_session requests_Session w) /\
     HTTP.__session self = requests_Session (next_session w))
  /\
  (forall u, proxy_url proxy = Return u ->
   exists self,
     AsyncHttp.__init__ None proxy proxy_auth w =
       (Return self, with_new_session aiohttp_ClientSession w) /\
     AsyncHttp.__session self = aiohttp_ClientSession (next_session w)).
Proof.
  repeat split.
  - intros Ho. unfold HTTP.__init__, bind, raise. now rewrite Ho.
  - intros Ho. unfold AsyncHttp.__init__, bind, raise. now rewrite Ho.
  - intros u Hu. eexists.
    unfold HTTP.__init__, bind, ret, lift, new_session. cbn. rewrite Hu.
    split; reflexivity.
  - intros u Hu. eexists.
    unfold AsyncHttp.__init__, bind, ret, lift, new_session. cbn. rewrite Hu.
    split; reflexivity.
Qed.

(** An [aiohttp] session handed to [HTTP], a [requests] session handed to
    [AsyncHttp], and both constructors without a session. *)
Lemma constructor_checks_session_witness :
  HTTP.__init__ (E := Sample.externals) (Some (aiohttp_ClientSession 7)) None None Sample.world =
    (Raise (RuntimeError "session is not of type requests.Session"), Sample.world)
  /\
  AsyncHttp.__init__ (E := Sample.externals) (Some (requests_Session 7)) None None Sample.world =
    (Raise (RuntimeError "session is not of type aiohttp.ClientSession"), Sample.world)
  /\
  (exists self,
     HTTP.__init__ (E := Sample.externals) None None None Sample.world =
       (Return self, with_new_session requests_Session Sample.world) /\
     HTTP.__session self = requests_Session 0).
Proof.
  destruct (constructor_checks_session (E := Sample.externals)
              (aiohttp_ClientSession 7) None None Sample.world) as (H1 & _ & H3 & _).
  destruct (constructor_checks_session (E := Sample.externals)
              (requests_Session 7) None None Sample.world) as (_ & H2 & _ & _).
  split; [exact (H1 eq_refl) |]. split; [exact (H2 eq_refl) |].
  exact (H3 None eq_refl).
Defined.

(** ** download *)

Lemma calls_app (l1 l2 : list event) : calls (l1 ++ l2) = (calls l1 ++ calls l2)%list.
Proof.
  induction l1 as [|e l1 IH]; [reflexivity |].
  destruct e; simpl; now rewrite ?IH.
Qed.

Section Download.
Context `{E : Externals}.

(** Running the part of [dl] that follows the request. *)
Ltac run_dl Hr :=
  unfold bind, perform, open_wb, file_write, file_close, sink_write, ret, record;
  rewrite Hr; cbn [events files denied sinks next_session].

Lemma HTTP_dl_ready (self : HTTP.t) (fp : target) (u : string) (w : World) (r : Response) :
  let c := requests_get (HTTP.__session self) u (HTTP.headers self) in
  respond (events w) c = Some r ->
  ready fp w ->
  HTTP.dl self fp u w = (Return (len (content r)), after_download c fp (content r) w).
Proof.
  intros c Hr Hready. unfold HTTP.dl, after_download. fold c.
  destruct fp as [p | id]; cbn [ready] in Hready.
  - run_dl Hr. rewrite bool_decide_eq_false_2 by assumption.
    cbn [events files denied sinks next_session].
    rewrite lookup_insert_eq, insert_insert_eq. cbn [default writes].
    now rewrite <- !app_assoc.
  - destruct Hready as (s & Hs & Hopen). run_dl Hr.
    rewrite Hs, Hopen. cbn [writes]. now rewrite <- !app_assoc.
Qed.

Lemma AsyncHttp_dl_ready (self : AsyncHttp.t) (fp : target) (u : string) (w : World)
    (r : Response) :
  let c := aiohttp_get (AsyncHttp.__session self) u (AsyncHttp.headers self) in
  respond (events w) c = Some r ->
  ready fp w ->
  AsyncHttp.dl self fp u w = (Return (len (content r)), after_download c fp (content r) w).
Proof.
  intros c Hr Hready. unfold AsyncHttp.dl, after_download. fold c.
  destruct fp as [p | id]; cbn [ready] in Hready.
  - run_dl Hr. rewrite bool_decide_eq_false_2 by assumption.
    cbn [events files denied sinks next_session].
    rewrite lookup_insert_eq, insert_insert_eq. cbn [default writes].
    now rewrite <- !app_assoc.
  - destruct Hready as (s & Hs & Hopen). run_dl Hr.
    rewrite Hs, Hopen. cbn [writes]. now rewrite <- !app_assoc.
Qed.

(** Whatever happens in [dl], it sends the one request and no other. *)
Lemma HTTP_dl_calls (self : HTTP.t) (fp : target) (u : string) (w : World) :
  calls (events (snd (HTTP.dl self fp u w))) =
  (calls (events w) ++ [requests_get (HTTP.__session self) u (HTTP.headers self)])%list.
Proof.
  unfold HTTP.dl, bind, perform, open_wb, file_write, file_close, sink_write, ret, record.
  destruct (respond _ _) as [r |]; cbn [snd events];
    [| now rewrite calls_app].
  destruct fp as [p | id].
  - case_bool_decide; cbn [snd events]; rewrite ?calls_app; cbn [calls];
      rewrite ?app_nil_r; reflexivity.
  - cbn [sinks]. destruct (sinks w !! id) as [s |]; [destruct (closed s) |];
      cbn [snd events]; rewrite ?calls_app; cbn [calls];
      rewrite ?app_nil_r; reflexivity.
Qed.

Lemma AsyncHttp_dl_calls (self : AsyncHttp.t) (fp : target) (u : string) (w : World) :
  calls (events (snd (AsyncHttp.dl self fp u w))) =
  (calls (events w) ++ [aiohttp_get (AsyncHttp.__session self) u (AsyncHttp.headers self)])%list.
Proof.
  unfold AsyncHttp.dl, bind, perform, open_wb, file_write, file_close, sink_write, ret, record.
  destruct (respond _ _) as [r |]; cbn [snd events];
    [| now rewrite calls_app].
  destruct fp as [p | id].
  - case_bool_decide; cbn [snd events]; rewrite ?calls_app; cbn [calls];
      rewrite ?app_nil_r; reflexivity.
  - cbn [sinks]. destruct (sinks w !! id) as [s |]; [destruct (closed s) |];
      cbn [snd events]; rewrite ?calls_app; cbn [calls];
      rewrite ?app_nil_r; reflexivity.
Qed.

Lemma thumbs_host_forallb (y : yarl.URL) :
  forallb (fun x => str_in x (str_of_optional (yarl.host y))) ["thumbs"; "redgifs"]
  = thumbs_host y.
Proof. unfold thumbs_host. cbn [forallb]. now rewrite andb_true_r. Qed.

(** The first branch of [download]. *)
Lemma HTTP_download_thumbs (self : HTTP.t) (url : string) (y : yarl.URL)
    (fp : target) (w : World) :
  yarl_URL url = Return y ->
  thumbs_host y = true ->
  HTTP.download self url fp w =
  if REDGIFS_THUMBS_RE (yarl.__str__ y) then HTTP.dl self fp (yarl.__str__ y) w
  else (Raise (invalid_url (yarl.__str__ y)), w).
Proof.
  intros Hy Hhost. unfold HTTP.download, bind, lift at 1. rewrite Hy.
  rewrite thumbs_host_forallb, Hhost.
  now destruct (REDGIFS_THUMBS_RE _).
Qed.

Lemma AsyncHttp_download_thumbs (self : AsyncHttp.t) (url : string) (y : yarl.URL)
    (fp : target) (w : World) :
  yarl_URL url = Return y ->
  thumbs_host y = true ->
  AsyncHttp.download self url fp w =
  if REDGIFS_THUMBS_RE (yarl.__str__ y) then AsyncHttp.dl self fp (yarl.__str__ y) w
  else (Raise (invalid_url (yarl.__str__ y)), w).
Proof.
  intros Hy Hhost. unfold AsyncHttp.download, bind, lift at 1. rewrite Hy.
  rewrite thumbs_host_forallb, Hhost.
  now destruct (REDGIFS_THUMBS_RE _).
Qed.

End Download.

(** ** download: direct assets *)

(** C5.  For a URL whose host contains both [thumbs] and [redgifs]: if it
    matches [REDGIFS_THUMBS_RE], [download] fetches that URL and nothing
    else (the only call is the plain [get]; no lookup is sent), and when the
    fetch answers and the target can be written it returns the number of
    bytes written; if it does not match, [download] raises the
    invalid-URL [TypeError] and does nothing.  Both transports. *)
Theorem download_direct_asset `{E : Externals} (self : HTTP.t) (aself : AsyncHttp.t)
    (url : string) (y : yarl.URL) (fp : target) (w : World) :
  yarl_URL url = Return y ->
  thumbs_host y = true ->
  let get := requests_get (HTTP.__session self) (yarl.__str__ y) (HTTP.headers self) in
  let aget := aiohttp_get (AsyncHttp.__session aself) (yarl.__str__ y) (AsyncHttp.headers aself) in
  (REDGIFS_THUMBS_RE (yarl.__str__ y) = true ->
     calls (events (snd (HTTP.download self url fp w))) = (calls (events w) ++ [get])%list /\
     calls (events (snd (await (AsyncHttp.download aself url fp) w)))
       = (calls (events w) ++ [aget])%list /\
     (forall r, respond (events w) get = Some r -> ready fp w ->
        HTTP.download self url fp w =
          (Return (len (content r)), after_download get fp (content r) w)) /\
     (forall r, respond (events w) aget = Some r -> ready fp w ->
        await (AsyncHttp.download aself url fp) w =
          (Return (len (content r)), after_download aget fp (content r) w)))
  /\
  (REDGIFS_THUMBS_RE (yarl.__str__ y) = false ->
     HTTP.download self url fp w = (Raise (invalid_url (yarl.__str__ y)), w) /\
     await (AsyncHttp.download aself url fp) w = (Raise (invalid_url (yarl.__str__ y)), w)).
Proof.
  intros Hy Hhost get aget. unfold await.
  rewrite (HTTP_download_thumbs self url y fp w Hy Hhost).
  rewrite (AsyncHttp_download_thumbs aself url y fp w Hy Hhost).
  split; intros ->.
  - split; [apply HTTP_dl_calls |]. split; [apply AsyncHttp_dl_calls |].
    split; intros r Hr Hready.
    + now apply HTTP_dl_ready.
    + now apply AsyncHttp_dl_ready.
  - split; reflexivity.
Qed.

(** Scenario 2 in the sample environment: the asset is fetched into a file
    and a sink, five bytes each, and no lookup is sent. *)
Lemma download_direct_asset_witness :
  let url := "https://thumbs44.redgifs.com/SomeAsset-mobile.mp4" in
  let headers := default_headers (E := Sample.externals) in
  (exists y, Sample.URL url = Return y /\ thumbs_host y = true) /\
  HTTP.download (E := Sample.externals) Sample.http url (Path "out.mp4") Sample.world =
    (Return 5%Z,
     after_download (requests_get (requests_Session 0) url headers)
       (Path "out.mp4") "video" Sample.world) /\
  await (AsyncHttp.download (E := Sample.externals) Sample.async_http url (Sink 0)) Sample.world =
    (Return 5%Z,
     after_download (aiohttp_get (aiohttp_ClientSession 0) url headers)
       (Sink 0) "video" Sample.world).
Proof.
  intros url headers.
  split; [eexists; split; reflexivity |].
  split.
  - destruct (download_direct_asset (E := Sample.externals) Sample.http Sample.async_http
                url _ (Path "out.mp4") Sample.world eq_refl eq_refl) as [Hmatch _].
    destruct (Hmatch eq_refl) as (_ & _ & Hsync & _).
    refine (Hsync _ eq_refl _). cbn. set_solver.
  - destruct (download_direct_asset (E := Sample.externals) Sample.http Sample.async_http
                url _ (Sink 0) Sample.world eq_refl eq_refl) as [Hmatch _].
    destruct (Hmatch eq_refl) as (_ & _ & _ & Hasync).
    refine (Hasync _ eq_refl _). cbn. eexists. split; reflexivity.
Defined.

(** ** download: unrecognized URLs *)

(** C6, as the code has it.  For a URL whose host does not contain both
    [thumbs] and [redgifs] and whose path does not contain [watch],
    [download] returns 1 and leaves the world as it is: nothing is fetched
    and nothing is written.  Both transports. *)
Theorem download_unrecognized `{E : Externals} (self : HTTP.t) (aself : AsyncHttp.t)
    (url : string) (y : yarl.URL) (fp : target) (w : World) :
  yarl_URL url = Return y ->
  thumbs_host y = false ->
  watch_page_grammar y = false ->
  HTTP.download self url fp w = (Return 1%Z, w) /\
  await (AsyncHttp.download aself url fp) w = (Return 1%Z, w).
Proof.
  intros Hy Hhost Hwatch. unfold watch_page_grammar in Hwatch.
  unfold await, HTTP.download, AsyncHttp.download, bind, lift.
  rewrite Hy, thumbs_host_forallb, Hhost, Hwatch. split; reflexivity.
Qed.

(** Scenario 4 as the code runs it. *)
Lemma download_unrecognized_witness :
  (exists y, Sample.URL "https://example.com/unrelated" = Return y /\
             thumbs_host y = false /\ watch_page_grammar y = false) /\
  HTTP.download (E := Sample.externals) Sample.http "https://example.com/unrelated"
    (Path "out.mp4") Sample.world = (Return 1%Z, Sample.world) /\
  await (AsyncHttp.download (E := Sample.externals) Sample.async_http
           "https://example.com/unrelated" (Path "out.mp4")) Sample.world
    = (Return 1%Z, Sample.world).
Proof.
  split; [eexists; repeat split; reflexivity |].
  exact (download_unrecognized (E := Sample.externals) Sample.http Sample.async_http
           "https://example.com/unrelated" _ (Path "out.mp4") Sample.world
           eq_refl eq_refl eq_refl).
Defined.

(** C6, as stated, fails on a URL of a thumbs host that is not an asset
    URL: it matches neither the direct-asset grammar (host and pattern) nor
    the watch-page grammar, and [download] raises instead of returning 1.
    The pattern is that of the sample environment; any pattern that
    rejects the URL gives the same run. *)
Lemma download_thumbs_host_raises :
  let url := "https://thumbs44.redgifs.com/" in
  (exists y, Sample.URL url = Return y /\
             direct_asset_grammar (E := Sample.externals) y = false /\
             watch_page_grammar y = false) /\
  HTTP.download (E := Sample.externals) Sample.http url (Path "out.mp4") Sample.world
    = (Raise (invalid_url url), Sample.world) /\
  fst (HTTP.download (E := Sample.externals) Sample.http url (Path "out.mp4") Sample.world)
    <> Return 1%Z.
Proof.
  intros url. split; [eexists; repeat split; reflexivity |].
  split; [reflexivity | discriminate].
Qed.

(** ** download: watch pages *)

Lemma getitem_field (js : json) (key : string) (v : json) :
  field key js = Some v -> getitem (of_json js) key = Return (of_json v).
Proof. destruct js; try discriminate. cbn. now intros ->. Qed.

(** What the blocking transport does on a watch page when the lookup and
    the fetch succeed: one lookup of [/v2/gifs/] followed by the stripped
    path, then the fetch of [gif.urls.hd] into the target. *)
Lemma HTTP_download_watch `{E : Externals} (self : HTTP.t) (url : string) (y : yarl.URL)
    (fp : target) (w : World) (r r' : Response) (js : json) (u : string) :
  let id := strip "/watch/" (yarl.path y) in
  let lookup :=
    requests_request (HTTP.__session self) "GET"
      ("https://api.redgifs.com/v2/gifs/" ++ quote id)
      (HTTP.headers self) (HTTP._proxy self) (HTTP._proxy_auth self) 60 [] in
  let get := requests_get (HTTP.__session self) u (HTTP.headers self) in
  yarl_URL url = Return y ->
  thumbs_host y = false ->
  watch_page_grammar y = true ->
  respond (events w) lookup = Some r ->
  status_code r = 200%Z ->
  json_body r = Some js ->
  hd_of js = Some (JStr u) ->
  respond (events w ++ [Call lookup]) get = Some r' ->
  ready fp w ->
  HTTP.download self url fp w =
  (Return (len (content r')), after_download get fp (content r') (record (Call lookup) w)).
Proof.
  intros id lookup get Hy Hhost Hwatch Hr Hstatus Hjs Hhd Hr' Hready.
  unfold watch_page_grammar in Hwatch.
  unfold HTTP.download, bind at 1, lift at 1.
  rewrite Hy, thumbs_host_forallb, Hhost, Hwatch. fold id.
  unfold get_gif, HTTP.self_request, HTTP.request, check_kwargs.
  unfold bind at 1 2 3 4 5 6 7 8, lift at 1, perform at 1, ret, raise.
  rewrite Route_get_gif.
  cbn [clashes existsb Route.url Route.method]. fold lookup.
  rewrite Hr, Hjs, Hstatus. cbn [Z.eqb Pos.eqb].
  unfold hd_of in Hhd.
  destruct (field "gif" js) as [gif |] eqn:Hgif; [| discriminate].
  destruct (field "urls" gif) as [urls |] eqn:Hurls; [| discriminate].
  unfold lift. rewrite (getitem_field _ _ _ Hgif), (getitem_field _ _ _ Hurls),
    (getitem_field _ _ _ Hhd).
  apply (HTTP_dl_ready self fp u (record (Call lookup) w) r'); [exact Hr' |].
  destruct fp; exact Hready.
Qed.

(** Scenario 3 on the blocking transport. *)
Example HTTP_download_watch_somename :
  let headers := default_headers (E := Sample.externals) in
  HTTP.download (E := Sample.externals) Sample.http
    "https://www.redgifs.com/watch/somename" (Sink 0) Sample.world =
  (Return 5%Z,
   after_download (requests_get (requests_Session 0) Sample.hd_url headers) (Sink 0) "video"
     (record (Call (requests_request (requests_Session 0) "GET"
                      "https://api.redgifs.com/v2/gifs/somename" headers None None 60 []))
        Sample.world)).
Proof. vm_compute. reflexivity. Qed.

(** [strip('/watch/')] removes characters, not a prefix: an identifier that
    begins or ends with one of [/], [w], [a], [t], [c], [h] loses them. *)
Example strip_watch_somename : strip "/watch/" "/watch/somename" = "somename".
Proof. reflexivity. Qed.

Example strip_watch_watchfulcat :
  trailing_segment "/watch/watchfulcat" = "watchfulcat" /\
  strip "/watch/" "/watch/watchfulcat" = "ful".
Proof. split; reflexivity. Qed.

Example HTTP_download_watch_watchfulcat :
  calls (events (snd (HTTP.download (E := Sample.externals) Sample.http
                        "https://www.redgifs.com/watch/watchfulcat" (Sink 0) Sample.world)))
  = [requests_request (requests_Session 0) "GET" "https://api.redgifs.com/v2/gifs/ful"
       (default_headers (E := Sample.externals)) None None 60 []].
Proof. vm_compute. reflexivity. Qed.

(** C2 on the non-blocking transport.  On every watch-page URL,
    [AsyncHttp.download] raises [TypeError] and leaves the world as it is:
    [self.get_gif(id)] is the coroutine of [request], which is subscripted
    without having been awaited.  No lookup is sent, nothing is fetched and
    nothing is written. *)
Theorem AsyncHttp_download_watch_raises `{E : Externals} (aself : AsyncHttp.t)
    (url : string) (y : yarl.URL) (fp : target) (w : World) :
  yarl_URL url = Return y ->
  thumbs_host y = false ->
  watch_page_grammar y = true ->
  await (AsyncHttp.download aself url fp) w =
  (Raise (TypeError "'coroutine' object is not subscriptable"), w).
Proof.
  intros Hy Hhost Hwatch. unfold watch_page_grammar in Hwatch.
  unfold await, AsyncHttp.download, bind at 1, lift at 1.
  rewrite Hy, thumbs_host_forallb, Hhost, Hwatch.
  unfold get_gif, AsyncHttp.self_request, bind, lift, ret.
  rewrite Route_get_gif. reflexivity.
Qed.

(** Scenario 3 on the non-blocking transport. *)
Lemma AsyncHttp_download_watch_raises_witness :
  (exists y, Sample.URL "https://www.redgifs.com/watch/somename" = Return y /\
             thumbs_host y = false /\ watch_page_grammar y = true) /\
  await (AsyncHttp.download (E := Sample.externals) Sample.async_http
           "https://www.redgifs.com/watch/somename" (Sink 0)) Sample.world
  = (Raise (TypeError "'coroutine' object is not subscriptable"), Sample.world).
Proof.
  split; [eexists; repeat split; reflexivity |].
  exact (AsyncHttp_download_watch_raises (E := Sample.externals) Sample.async_http
           "https://www.redgifs.com/watch/somename" _ (Sink 0) Sample.world
           eq_refl eq_refl eq_refl).
Defined.

(** ** download reaches its target through dl only *)

Section Through.
Context `{E : Externals}.

Lemma calls_only_refl (w : World) : calls_only w w.
Proof. split; [exists []; cbn; now rewrite app_nil_r | now repeat split]. Qed.

Lemma calls_only_record (c : call) (w : World) : calls_only w (record (Call c) w).
Proof. split; [now exists [c] | now repeat split]. Qed.

Lemma HTTP_request_calls_only (self : HTTP.t) (route : Route.t) (kwargs : kwargs_t)
    (w : World) :
  calls_only w (snd (HTTP.request self route kwargs w)).
Proof.
  unfold HTTP.request, check_kwargs, bind, perform, ret, raise.
  destruct (clashes _ kwargs); cbn [snd]; [apply calls_only_refl |].
  destruct (respond _ _) as [r |]; cbn [snd]; [| apply calls_only_record].
  destruct (json_body r); [destruct (_ =? _)%Z |]; apply calls_only_record.
Qed.

Lemma HTTP_get_gif_calls_only (self : HTTP.t) (id : string) (w : World) :
  calls_only w (snd (get_gif (HTTP.self_request self) id [] w)).
Proof.
  unfold get_gif, HTTP.self_request, bind at 1 2, lift at 1, ret.
  rewrite Route_get_gif.
  pose proof (HTTP_request_calls_only self
                {| Route.method := "GET"; Route.path := "/v2/gifs/{id}";
                   Route.url := "https://api.redgifs.com/v2/gifs/" ++ quote id |} [] w) as H.
  destruct (HTTP.request _ _ _ w) as [[js | e |] w1]; exact H.
Qed.

(** One step of a run. *)
Lemma bind_run {A B} (c : M A) (k : A -> M B) (w : World) :
  bind c k w =
  match c w with
  | (Return a, w') => k a w'
  | (Raise e, w') => (Raise e, w')
  | (Unmodelled, w') => (Unmodelled, w')
  end.
Proof. reflexivity. Qed.

Lemma bind_lift {A B} (o : outcome A) (k : A -> M B) (w : World) :
  bind (lift o) k w =
  match o with
  | Return a => k a w
  | Raise e => (Raise e, w)
  | Unmodelled => (Unmodelled, w)
  end.
Proof. now destruct o. Qed.

(** A run of [HTTP.download] is a run of [dl] after calls only, or it is
    calls only. *)
Lemma HTTP_download_through_dl (self : HTTP.t) (url : string) (fp : target) (w : World) :
  (exists u w1, calls_only w w1 /\ HTTP.download self url fp w = HTTP.dl self fp u w1)
  \/ calls_only w (snd (HTTP.download self url fp w)).
Proof.
  unfold HTTP.download. rewrite bind_lift.
  destruct (yarl_URL url) as [y | e |]; cbn [snd];
    try (right; apply calls_only_refl).
  destruct (forallb _ _).
  { destruct (REDGIFS_THUMBS_RE _).
    - left. exists (yarl.__str__ y), w. split; [apply calls_only_refl | reflexivity].
    - right. apply calls_only_refl. }
  destruct (str_in _ _); [| right; apply calls_only_refl].
  rewrite bind_run.
  pose proof (HTTP_get_gif_calls_only self (strip "/watch/" (yarl.path y)) w) as H.
  destruct (get_gif _ _ _ w) as [[js | e |] w1]; cbn [snd] in H |- *;
    try (right; exact H).
  rewrite bind_lift.
  destruct (getitem js "gif") as [gif | e |]; cbn [snd]; try (right; exact H).
  rewrite bind_lift.
  destruct (getitem gif "urls") as [urls | e |]; cbn [snd]; try (right; exact H).
  rewrite bind_lift.
  destruct (getitem urls "hd") as [hd_url | e |]; cbn [snd]; try (right; exact H).
  destruct hd_url as [[] |]; cbn [snd]; try (right; exact H).
  left. eexists _, w1. split; [exact H | reflexivity].
Qed.

Lemma AsyncHttp_download_through_dl (self : AsyncHttp.t) (url : string) (fp : target)
    (w : World) :
  (exists u w1, calls_only w w1 /\
     await (AsyncHttp.download self url fp) w = AsyncHttp.dl self fp u w1)
  \/ calls_only w (snd (await (AsyncHttp.download self url fp) w)).
Proof.
  unfold await, AsyncHttp.download. rewrite bind_lift.
  destruct (yarl_URL url) as [y | e |]; cbn [snd];
    try (right; apply calls_only_refl).
  destruct (forallb _ _).
  { destruct (REDGIFS_THUMBS_RE _).
    - left. exists (yarl.__str__ y), w. split; [apply calls_only_refl | reflexivity].
    - right. apply calls_only_refl. }
  destruct (str_in _ _); [| right; apply calls_only_refl].
  right. unfold get_gif, AsyncHttp.self_request, bind, lift, ret.
  rewrite Route_get_gif. apply calls_only_refl.
Qed.

End Through.

(** C8.  When the fetch answers and the target is a path that can be
    opened, [dl] opens it with mode [wb], writes the fetched bytes and
    closes it, in this order and before it returns; the file then holds
    exactly these bytes.  When the target is an open sink, [dl] writes the
    bytes to it and does nothing else to it: the sink stays open.  Both
    transports.  [download] on a direct asset is this run of [dl], and
    every run of [download] is either a run of [dl] after some calls, or
    calls only: it reaches its target through [dl] and not otherwise. *)
Theorem download_writes_target `{E : Externals} (self : HTTP.t) (aself : AsyncHttp.t)
    (u : string) (w : World) (r ra : Response) :
  let get := requests_get (HTTP.__session self) u (HTTP.headers self) in
  let aget := aiohttp_get (AsyncHttp.__session aself) u (AsyncHttp.headers aself) in
  respond (events w) get = Some r ->
  respond (events w) aget = Some ra ->
  (forall p, p ∉ denied w ->
     (exists w', HTTP.dl self (Path p) u w = (Return (len (content r)), w') /\
        events w' = (events w ++ [Call get; Open p "wb"; Write p (content r); Close p])%list /\
        files w' !! p = Some (content r) /\ sinks w' = sinks w) /\
     (exists w', await (AsyncHttp.dl aself (Path p) u) w = (Return (len (content ra)), w') /\
        events w' = (events w ++ [Call aget; Open p "wb"; Write p (content ra); Close p])%list /\
        files w' !! p = Some (content ra) /\ sinks w' = sinks w))
  /\
  (forall id s, sinks w !! id = Some s -> closed s = false ->
     (exists w', HTTP.dl self (Sink id) u w = (Return (len (content r)), w') /\
        events w' = (events w ++ [Call get; SinkWrite id (content r)])%list /\
        sinks w' !! id = Some {| written := written s ++ content r; closed := false |} /\
        files w' = files w) /\
     (exists w', await (AsyncHttp.dl aself (Sink id) u) w = (Return (len (content ra)), w') /\
        events w' = (events w ++ [Call aget; SinkWrite id (content ra)])%list /\
        sinks w' !! id = Some {| written := written s ++ content ra; closed := false |} /\
        files w' = files w))
  /\
  (forall url y fp,
     yarl_URL url = Return y -> thumbs_host y = true ->
     REDGIFS_THUMBS_RE (yarl.__str__ y) = true -> yarl.__str__ y = u ->
     HTTP.download self url fp w = HTTP.dl self fp u w /\
     await (AsyncHttp.download aself url fp) w = AsyncHttp.dl aself fp u w)
  /\
  (forall url fp w0,
     ((exists u1 w1, calls_only w0 w1 /\
         HTTP.download self url fp w0 = HTTP.dl self fp u1 w1)
      \/ calls_only w0 (snd (HTTP.download self url fp w0)))
     /\
     ((exists u1 w1, calls_only w0 w1 /\
         await (AsyncHttp.download aself url fp) w0 = AsyncHttp.dl aself fp u1 w1)
      \/ calls_only w0 (snd (await (AsyncHttp.download aself url fp) w0)))).
Proof.
  intros get aget Hr Hra.
  split; [| split; [| split]];
    [| | | intros url fp w0; split;
           [apply HTTP_download_through_dl | apply AsyncHttp_download_through_dl]];
    unfold await.
  - intros p Hp. split; eexists.
    + rewrite (HTTP_dl_ready self (Path p) u w r Hr Hp).
      split; [reflexivity |]. cbn. now rewrite lookup_insert_eq.
    + rewrite (AsyncHttp_dl_ready aself (Path p) u w ra Hra Hp).
      split; [reflexivity |]. cbn. now rewrite lookup_insert_eq.
  - intros id s Hs Hopen.
    assert (ready (Sink id) w) as Hready by (exists s; now split).
    split; eexists.
    + rewrite (HTTP_dl_ready self (Sink id) u w r Hr Hready).
      split; [reflexivity |]. cbn. rewrite Hs. now rewrite lookup_insert_eq.
    + rewrite (AsyncHttp_dl_ready aself (Sink id) u w ra Hra Hready).
      split; [reflexivity |]. cbn. rewrite Hs. now rewrite lookup_insert_eq.
  - intros url y fp Hy Hhost Hre <-.
    rewrite (HTTP_download_thumbs self url y fp w Hy Hhost).
    rewrite (AsyncHttp_download_thumbs aself url y fp w Hy Hhost).
    rewrite Hre. split; reflexivity.
Qed.

(** The sample asset written to a file and to the open sink. *)
Lemma download_writes_target_witness :
  let u := "https://thumbs44.redgifs.com/SomeAsset-mobile.mp4" in
  let headers := default_headers (E := Sample.externals) in
  let video := {| status_code := 200; content := "video"; json_body := None |} in
  Sample.server [] (requests_get (requests_Session 0) u headers) = Some video /\
  Sample.server [] (aiohttp_get (aiohttp_ClientSession 0) u headers) = Some video /\
  (exists w',
     HTTP.download (E := Sample.externals) Sample.http u (Path "out.mp4") Sample.world
       = (Return 5%Z, w') /\
     events w' = [Call (requests_get (requests_Session 0) u headers);
                  Open "out.mp4" "wb"; Write "out.mp4" "video"; Close "out.mp4"] /\
     files w' !! "out.mp4" = Some "video") /\
  (exists w',
     await (AsyncHttp.download (E := Sample.externals) Sample.async_http u (Sink 0)) Sample.world
       = (Return 5%Z, w') /\
     events w' = [Call (aiohttp_get (aiohttp_ClientSession 0) u headers);
                  SinkWrite 0 "video"] /\
     sinks w' !! 0%nat = Some {| written := "video"; closed := false |}).
Proof.
  intros u headers video.
  split; [reflexivity |]. split; [reflexivity |].
  destruct (download_writes_target (E := Sample.externals) Sample.http Sample.async_http
              u Sample.world video video eq_refl eq_refl) as (Hpath & Hsink & Hdl & _).
  destruct (Hdl u _ (Path "out.mp4") eq_refl eq_refl eq_refl eq_refl) as [Hs _].
  destruct (Hdl u _ (Sink 0) eq_refl eq_refl eq_refl eq_refl) as [_ Ha].
  split.
  - destruct (Hpath "out.mp4") as [(w' & Hrun & Hev & Hf & _) _]; [cbn; set_solver |].
    exists w'. rewrite Hs. now repeat split.
  - destruct (Hsink 0%nat {| written := EmptyString; closed := false |} eq_refl eq_refl)
      as [_ (w' & Hrun & Hev & Hsk & _)].
    exists w'. rewrite Ha. now repeat split.
Defined.

(** ** What a transport sends *)

Section Only.
Context `{E : Externals}.
Variable P : event -> Prop.

Lemma continues_refl (w : World) : continues P w w.
Proof. exists []. split; [now rewrite app_nil_r | constructor]. Qed.

Lemma continues_trans (w1 w2 w3 : World) :
  continues P w1 w2 -> continues P w2 w3 -> continues P w1 w3.
Proof.
  intros (l1 & H1 & F1) (l2 & H2 & F2). exists (l1 ++ l2)%list. split.
  - now rewrite H2, H1, app_assoc.
  - now apply Forall_app.
Qed.

Lemma continues_event (e : event) (w w' : World) :
  P e -> events w' = (events w ++ [e])%list -> continues P w w'.
Proof. intros He Hev. exists [e]. split; [exact Hev | now repeat constructor]. Qed.

Lemma only_ret {A} (a : A) : only P (ret a).
Proof. intros w. apply continues_refl. Qed.

Lemma only_raise {A} (e : exn) : only P (raise (A := A) e).
Proof. intros w. apply continues_refl. Qed.

Lemma only_lift {A} (o : outcome A) : only P (lift o).
Proof. intros w. apply continues_refl. Qed.

Lemma only_bind {A B} (c : M A) (k : A -> M B) :
  only P c -> (forall a, only P (k a)) -> only P (bind c k).
Proof.
  intros Hc Hk w. unfold bind. specialize (Hc w).
  destruct (c w) as [[a | e |] w']; cbn [snd] in *; try exact Hc.
  eapply continues_trans; [exact Hc | apply Hk].
Qed.

Lemma only_perform (c : call) : P (Call c) -> only P (perform c).
Proof.
  intros Hc w. unfold perform.
  destruct (respond (events w) c); now apply (continues_event (Call c)).
Qed.

Lemma only_open_wb (p : string) : P (Open p "wb") -> only P (open_wb p).
Proof.
  intros Hp w. unfold open_wb. case_bool_decide.
  - apply continues_refl.
  - now apply (continues_event (Open p "wb")).
Qed.

Lemma only_file_write (p data : string) : P (Write p data) -> only P (file_write p data).
Proof. intros Hp w. now apply (continues_event (Write p data)). Qed.

Lemma only_file_close (p : string) : P (Close p) -> only P (file_close p).
Proof. intros Hp w. now apply (continues_event (Close p)). Qed.

Lemma only_sink_write (id : nat) (data : string) :
  P (SinkWrite id data) -> only P (sink_write id data).
Proof.
  intros Hp w. unfold sink_write.
  destruct (sinks w !! id) as [s |]; [destruct (closed s) |];
    try apply continues_refl.
  now apply (continues_event (SinkWrite id data)).
Qed.

Lemma only_check_kwargs (taken : list string) (kwargs : kwargs_t) :
  only P (check_kwargs taken kwargs).
Proof.
  unfold check_kwargs. destruct (clashes taken kwargs);
    [apply only_raise | apply only_ret].
Qed.

End Only.

Section Credentials.
Context `{E : Externals}.

Create HintDb only.
Local Hint Resolve only_ret only_raise only_lift only_check_kwargs : only.

Ltac only_step :=
  first
    [ apply only_bind; [| intros ?]
    | apply only_perform; cbn; try assumption; try reflexivity
    | apply only_open_wb; exact I
    | apply only_file_write; exact I
    | apply only_file_close; exact I
    | apply only_sink_write; exact I
    | solve [auto with only] ].

Lemma HTTP_request_only (self : HTTP.t) (route : Route.t) (kwargs : kwargs_t) :
  HTTP._proxy_auth self = None ->
  only without_credentials (HTTP.request self route kwargs).
Proof.
  intros Hauth. unfold HTTP.request. repeat only_step.
  destruct (json_body _); [destruct (_ =? _)%Z |]; only_step.
Qed.

Lemma AsyncHttp_request_only (self : AsyncHttp.t) (route : Route.t) (kwargs : kwargs_t) :
  AsyncHttp._proxy_auth self = None ->
  only without_credentials (AsyncHttp.request self route kwargs).
Proof.
  intros Hauth. unfold AsyncHttp.request. repeat only_step.
  destruct (json_body _); [destruct (_ =? _)%Z |]; only_step.
Qed.

Lemma HTTP_dl_only (self : HTTP.t) (fp : target) (u : string) :
  only without_credentials (HTTP.dl self fp u).
Proof. unfold HTTP.dl. only_step; [only_step |]. destruct fp; repeat only_step. Qed.

Lemma AsyncHttp_dl_only (self : AsyncHttp.t) (fp : target) (u : string) :
  only without_credentials (AsyncHttp.dl self fp u).
Proof. unfold AsyncHttp.dl. only_step; [only_step |]. destruct fp; repeat only_step. Qed.

Lemma HTTP_download_only (self : HTTP.t) (url : string) (fp : target) :
  HTTP._proxy_auth self = None ->
  only without_credentials (HTTP.download self url fp).
Proof.
  intros Hauth. unfold HTTP.download. only_step; [only_step |].
  destruct (forallb _ _).
  { destruct (REDGIFS_THUMBS_RE _); [apply HTTP_dl_only | only_step]. }
  destruct (str_in _ _); [| only_step].
  apply only_bind; [| intros js].
  { unfold get_gif, HTTP.self_request. only_step; [only_step |].
    only_step; [now apply HTTP_request_only | only_step]. }
  apply only_bind; [only_step | intros gif].
  apply only_bind; [only_step | intros urls].
  apply only_bind; [only_step | intros hd_url].
  destruct hd_url as [[] |]; try apply HTTP_dl_only; only_step.
Qed.

Lemma AsyncHttp_download_only (self : AsyncHttp.t) (url : string) (fp : target) :
  only without_credentials (AsyncHttp.download self url fp).
Proof.
  unfold AsyncHttp.download, await. only_step; [only_step |].
  destruct (forallb _ _).
  { destruct (REDGIFS_THUMBS_RE _); [apply AsyncHttp_dl_only | only_step]. }
  destruct (str_in _ _); [| only_step].
  apply only_bind; [| intros co].
  { unfold get_gif, AsyncHttp.self_request. only_step; only_step. }
  apply only_bind; [only_step | intros gif].
  apply only_bind; [only_step | intros urls].
  apply only_bind; [only_step | intros hd_url].
  destruct hd_url as [[] |]; try apply AsyncHttp_dl_only; only_step.
Qed.

Lemma proxy_url_absent (proxy : option string) :
  proxy = None \/ proxy = Some EmptyString -> proxy_url proxy = Return None.
Proof. now intros [-> | ->]. Qed.

End Credentials.

(** C10.  A transport built with proxy credentials but without a proxy
    (none, or the empty string) is built without complaint, keeps neither
    a proxy nor an authentication to send, and whatever it is asked
    afterwards, by [request] or by [download], no call it makes carries
    credentials: neither [auth] of [requests], which goes to the origin
    server, nor [proxy_auth] of [aiohttp], which goes to the proxy. *)
Theorem proxy_credentials_discarded `{E : Externals} (session : option object)
    (proxy : option string) (a : ProxyAuth) (w : World) :
  proxy = None \/ proxy = Some EmptyString ->
  (accepted is_requests_Session session ->
   exists self w',
     HTTP.__init__ session proxy (Some a) w = (Return self, w') /\
     HTTP._proxy self = None /\
     HTTP._proxy_auth self = None /\
     (forall route kwargs, only without_credentials (HTTP.request self route kwargs)) /\
     (forall url fp, only without_credentials (HTTP.download self url fp)))
  /\
  (accepted is_aiohttp_ClientSession session ->
   exists aself w',
     AsyncHttp.__init__ session proxy (Some a) w = (Return aself, w') /\
     AsyncHttp.proxy_argument aself = None /\
     AsyncHttp._proxy_auth aself = None /\
     (forall route kwargs,
        only without_credentials (await (AsyncHttp.request aself route kwargs))) /\
     (forall url fp, only without_credentials (await (AsyncHttp.download aself url fp)))).
Proof.
  intros Hproxy. pose proof (proxy_url_absent proxy Hproxy) as Hurl. split.
  - intros Hsession. unfold HTTP.__init__, bind, ret, raise, lift, new_session.
    rewrite Hurl. destruct session as [o |]; cbn in Hsession; [rewrite Hsession |];
      cbn; do 2 eexists; (split; [reflexivity |]); cbn;
      (split; [reflexivity |]); (split; [reflexivity |]);
      (split; [intros; now apply HTTP_request_only
              | intros; now apply HTTP_download_only]).
  - intros Hsession. unfold AsyncHttp.__init__, bind, ret, raise, lift, new_session.
    rewrite Hurl. destruct session as [o |]; cbn in Hsession; [rewrite Hsession |];
      cbn; do 2 eexists; (split; [reflexivity |]); cbn;
      (split; [reflexivity |]); (split; [reflexivity |]);
      (split; [intros; now apply AsyncHttp_request_only
              | intros; apply AsyncHttp_download_only]).
Qed.

(** Both transports built in the sample world with credentials and no
    proxy. *)
Lemma proxy_credentials_discarded_witness :
  let a := {| username := "user"; password := "secret" |} in
  (exists self w',
     HTTP.__init__ (E := Sample.externals) None None (Some a) Sample.world = (Return self, w') /\
     HTTP._proxy_auth self = None /\
     continues without_credentials w'
       (snd (HTTP.download (E := Sample.externals) self
               "https://www.redgifs.com/watch/somename" (Sink 0) w'))) /\
  (exists aself w',
     AsyncHttp.__init__ (E := Sample.externals) (Some (aiohttp_ClientSession 4)) (Some EmptyString)
       (Some a) Sample.world = (Return aself, w') /\
     AsyncHttp._proxy_auth aself = None).
Proof.
  intros a. split.
  - destruct (proxy_credentials_discarded (E := Sample.externals) None None a Sample.world
                (or_introl eq_refl)) as [Hs _].
    destruct (Hs I) as (self & w' & Hinit & _ & Hauth & _ & Hdl).
    exists self, w'. split; [exact Hinit |]. split; [exact Hauth |]. apply Hdl.
  - destruct (proxy_credentials_discarded (E := Sample.externals)
                (Some (aiohttp_ClientSession 4)) (Some EmptyString) a Sample.world
                (or_intror eq_refl)) as [_ Ha].
    destruct (Ha eq_refl) as (aself & w' & Hinit & _ & Hauth & _).
    exists aself, w'. now split.
Defined.

(** * Further properties of the code *)

(** ** Route: missing and unused parameters, literal braces *)

Lemma format_map_first_missing (parameters : gmap string value) (tpl : list segment) :
  template_ok tpl = true ->
  format_map (template_text tpl) (Route.quoted parameters) =
  match first_missing parameters tpl with
  | Some name => Raise (KeyError name)
  | None => Return (substituted tpl parameters)
  end.
Proof.
  unfold format_map.
  induction tpl as [|[s | name] tpl IH]; intros Hok.
  - reflexivity.
  - simpl in Hok. apply andb_true_iff in Hok as [Hs Hok].
    cbn [template_text substituted first_missing].
    rewrite format_scan_text, (IH Hok) by assumption.
    now destruct (first_missing parameters tpl).
  - simpl in Hok. apply andb_true_iff in Hok as [Hid Hok].
    cbn [template_text substituted first_missing].
    change ("{" ++ name ++ "}" ++ template_text tpl)
      with (String "{" (name ++ String "}" (template_text tpl))).
    rewrite format_scan_placeholder by assumption.
    destruct (parameters !! name) as [v |] eqn:Hv.
    + rewrite (field_text_quoted _ _ _ Hid Hv). cbn [outcome_bind].
      rewrite (IH Hok). now destruct (first_missing parameters tpl).
    + rewrite field_text_identifier by assumption.
      unfold Route.quoted. now rewrite lookup_fmap, Hv.
Qed.

(** [Route] with keyword arguments on a well-formed template. *)
Lemma Route_with_parameters (method : string) (tpl : list segment)
    (parameters : gmap string value) :
  template_ok tpl = true ->
  parameters <> ∅ ->
  Route.__init__ method (template_text tpl) parameters =
  match first_missing parameters tpl with
  | Some name => Raise (KeyError name)
  | None =>
      Return {| Route.method := method;
                Route.path := template_text tpl;
                Route.url := "https://api.redgifs.com" ++ substituted tpl parameters |}
  end.
Proof.
  intros Hok Hne. unfold Route.__init__.
  rewrite bool_decide_eq_false_2 by assumption.
  change (Route.BASE ++ template_text tpl)
    with (template_text (Text Route.BASE :: tpl)).
  rewrite format_map_first_missing
    by (change (brace_free Route.BASE && template_ok tpl = true); now rewrite Hok).
  cbn [first_missing substituted].
  now destruct (first_missing parameters tpl).
Qed.

(** When keyword arguments are given and a placeholder of the template has
    none, [Route] raises [KeyError] for the first such placeholder; without
    any keyword argument it raises nothing and keeps the placeholders in
    the URL as they are written. *)
Theorem Route_missing_parameter (method : string) (tpl : list segment)
    (parameters : gmap string value) (name : string) :
  template_ok tpl = true ->
  first_missing parameters tpl = Some name ->
  Route.__init__ method (template_text tpl) parameters =
  if bool_decide (parameters = ∅)
  then Return {| Route.method := method;
                 Route.path := template_text tpl;
                 Route.url := "https://api.redgifs.com" ++ template_text tpl |}
  else Raise (KeyError name).
Proof.
  intros Hok Hmiss. case_bool_decide as Hempty.
  - subst parameters. unfold Route.__init__.
    now rewrite bool_decide_eq_true_2 by reflexivity.
  - now rewrite Route_with_parameters, Hmiss by assumption.
Qed.

Lemma Route_missing_parameter_witness :
  let tpl := [Text "/v2/gifs/"; Placeholder "id"; Text "/"; Placeholder "kind"] in
  template_ok tpl = true /\
  first_missing {[ "id" := VStr "abc" ]} tpl = Some "kind" /\
  Route.__init__ "GET" "/v2/gifs/{id}/{kind}" {[ "id" := VStr "abc" ]} =
    Raise (KeyError "kind") /\
  first_missing ∅ tpl = Some "id" /\
  Route.__init__ "GET" "/v2/gifs/{id}/{kind}" ∅ =
    Return {| Route.method := "GET";
              Route.path := "/v2/gifs/{id}/{kind}";
              Route.url := "https://api.redgifs.com/v2/gifs/{id}/{kind}" |}.
Proof.
  intros tpl. split; [reflexivity |]. split; [reflexivity |].
  split; [| split; [reflexivity |]].
  - exact (Route_missing_parameter "GET" tpl {[ "id" := VStr "abc" ]} "kind"
             eq_refl eq_refl).
  - exact (Route_missing_parameter "GET" tpl ∅ "id" eq_refl eq_refl).
Defined.

Lemma first_missing_agree (p1 p2 : gmap string value) (tpl : list segment) :
  (forall name, In name (placeholders tpl) -> p1 !! name = p2 !! name) ->
  first_missing p1 tpl = first_missing p2 tpl /\
  substituted tpl p1 = substituted tpl p2.
Proof.
  induction tpl as [|[s | name] tpl IH]; intros Hagree.
  - now split.
  - cbn [first_missing substituted]. destruct (IH Hagree) as [H1 H2].
    now rewrite H1, H2.
  - cbn [first_missing substituted].
    rewrite (Hagree name) by now left.
    destruct IH as [H1 H2]; [intros n Hn; apply Hagree; now right |].
    now rewrite H1, H2.
Qed.

(** Only the arguments that the template names count: two non-empty sets of
    keyword arguments that agree on the placeholders give the same
    [Route], or the same error. *)
Theorem Route_ignores_unused (method : string) (tpl : list segment)
    (p1 p2 : gmap string value) :
  template_ok tpl = true ->
  p1 <> ∅ -> p2 <> ∅ ->
  (forall name, In name (placeholders tpl) -> p1 !! name = p2 !! name) ->
  Route.__init__ method (template_text tpl) p1 =
  Route.__init__ method (template_text tpl) p2.
Proof.
  intros Hok H1 H2 Hagree.
  rewrite !Route_with_parameters by assumption.
  destruct (first_missing_agree p1 p2 tpl Hagree) as [-> ->]. reflexivity.
Qed.

Lemma Route_ignores_unused_witness :
  let tpl := [Text "/v2/gifs/"; Placeholder "id"] in
  let p1 : gmap string value := {[ "id" := VStr "abc" ]} in
  let p2 : gmap string value := {[ "id" := VStr "abc"; "page" := VInt 3 ]} in
  template_ok tpl = true /\
  Route.__init__ "GET" "/v2/gifs/{id}" p2 =
    Return {| Route.method := "GET";
              Route.path := "/v2/gifs/{id}";
              Route.url := "https://api.redgifs.com/v2/gifs/abc" |}.
Proof.
  intros tpl p1 p2. split; [reflexivity |].
  assert (forall name, In name (placeholders tpl) -> p1 !! name = p2 !! name) as Hagree
    by (intros name [<- | []]; reflexivity).
  pose proof (Route_ignores_unused "GET" tpl p1 p2 eq_refl
                (insert_non_empty _ _ _) (insert_non_empty _ _ _) Hagree) as H.
  etransitivity; [symmetry; exact H | reflexivity].
Defined.

Lemma format_scan_double_braces mapping (s rest : string) :
  format_scan mapping InText (double_braces s ++ rest) =
  emit s (format_scan mapping InText rest).
Proof.
  induction s as [|c s IH]; [now rewrite emit_empty |].
  cbn [double_braces]. unfold is_brace.
  destruct (Ascii.eqb c "{") eqn:Hopen; cbn [orb].
  - apply Ascii.eqb_eq in Hopen. subst c.
    cbn [append format_scan Ascii.eqb Bool.eqb]. cbn.
    rewrite IH. apply emit_emit.
  - destruct (Ascii.eqb c "}") eqn:Hclose.
    + apply Ascii.eqb_eq in Hclose. subst c.
      cbn [append format_scan Ascii.eqb Bool.eqb]. cbn.
      rewrite IH. apply emit_emit.
    + cbn [append format_scan]. rewrite Hopen, Hclose, IH. apply emit_emit.
Qed.

(** A path whose braces are all doubled is resolved to the path with
    single braces when [Route] is given keyword arguments, and is kept with
    its doubled braces when it is given none: the template is formatted
    only if there are arguments. *)
Theorem Route_literal_braces (method s : string) (parameters : gmap string value) :
  Route.__init__ method (double_braces s) parameters =
  Return {| Route.method := method;
            Route.path := double_braces s;
            Route.url := "https://api.redgifs.com" ++
                         (if bool_decide (parameters = ∅) then double_braces s else s) |}.
Proof.
  unfold Route.__init__. case_bool_decide as Hempty; [reflexivity |].
  unfold format_map, Route.BASE.
  rewrite format_scan_text by reflexivity.
  rewrite <- (append_empty_r (double_braces s)), format_scan_double_braces.
  cbn [format_scan emit outcome_bind].
  now rewrite !append_empty_r.
Qed.

(** ** quote can be undone *)

Lemma unquote_quoter (c : ascii) (t : string) :
  unquote (quoter "/" c ++ t) = String c (unquote t).
Proof. each_char c; reflexivity. Qed.

Lemma unquote_quote (s : string) : unquote (quote s) = s.
Proof.
  unfold quote. induction s as [|c s IH]; [reflexivity |].
  cbn [quote_from_bytes]. now rewrite unquote_quoter, IH.
Qed.

(** The URL of the lookup that [get_gif] sends determines the identifier:
    [Route] always resolves [/v2/gifs/{id}], to the origin, [/v2/gifs/] and
    the quoted identifier, from which percent-decoding gives the
    identifier back; so two identifiers with the same URL are equal. *)
Theorem Route_get_gif_injective (id1 id2 : string) :
  (exists r1 r2,
     Route.__init__ "GET" "/v2/gifs/{id}" {[ "id" := VStr id1 ]} = Return r1 /\
     Route.__init__ "GET" "/v2/gifs/{id}" {[ "id" := VStr id2 ]} = Return r2 /\
     Route.url r1 = "https://api.redgifs.com/v2/gifs/" ++ quote id1 /\
     unquote (quote id1) = id1 /\
     (Route.url r1 = Route.url r2 -> id1 = id2)).
Proof.
  do 2 eexists. rewrite !Route_get_gif.
  split; [reflexivity |]. split; [reflexivity |]. split; [reflexivity |].
  split; [apply unquote_quote |].
  cbn [Route.url]. intros Heq.
  apply (f_equal (fun s => unquote (Sample.str_drop 32 s))) in Heq.
  cbn [Sample.str_drop append] in Heq.
  now rewrite !unquote_quote in Heq.
Qed.

(** ** The query methods *)

Lemma count_char_app (c : ascii) (a b : string) :
  count_char c (a ++ b) = count_char c a + count_char c b.
Proof. induction a as [|d a IH]; simpl; [reflexivity | rewrite IH; lia]. Qed.

Lemma count_char_none p (c : ascii) (s : string) :
  all_chars p s = true -> p c = false -> count_char c s = 0.
Proof.
  intros Hs Hc. induction s as [|d s IH]; [reflexivity |].
  simpl in Hs. apply andb_true_iff in Hs as [Hd Hs]. simpl. rewrite (IH Hs).
  destruct (Ascii.eqb_spec c d) as [-> | _]; [congruence | reflexivity].
Qed.

Lemma quoter_quoted_chars (c : ascii) : all_chars quoted_char (quoter "/" c) = true.
Proof. each_char c; reflexivity. Qed.

Lemma quote_quoted_chars (s : string) : all_chars quoted_char (quote s) = true.
Proof.
  unfold quote. induction s as [|c s IH]; [reflexivity |].
  cbn [quote_from_bytes]. now rewrite all_chars_app, quoter_quoted_chars, IH.
Qed.

Lemma count_char_quote (c : ascii) (s : string) :
  quoted_char c = false -> count_char c (quote s) = 0.
Proof.
  intros Hc. apply (count_char_none quoted_char); [apply quote_quoted_chars | exact Hc].
Qed.

Lemma string_of_uint_int_chars (d : Decimal.uint) :
  all_chars int_char (NilEmpty.string_of_uint d) = true.
Proof. induction d; simpl; auto. Qed.

Lemma str_of_int_int_chars (z : Z) : all_chars int_char (str_of_int z) = true.
Proof.
  assert (forall d, all_chars int_char (NilZero.string_of_uint d) = true) as Hu.
  { intros d. destruct d; [reflexivity | ..];
      match goal with
      | |- all_chars _ (NilZero.string_of_uint ?x) = true =>
          exact (string_of_uint_int_chars x)
      end. }
  unfold str_of_int, NilZero.string_of_int.
  destruct (Z.to_int z) as [d | d]; [apply Hu |].
  change (all_chars int_char (NilZero.string_of_uint d) = true). apply Hu.
Qed.

Lemma count_char_int (c : ascii) (z : Z) :
  int_char c = false -> count_char c (str_of_int z) = 0.
Proof.
  intros Hc. apply (count_char_none int_char); [apply str_of_int_int_chars | exact Hc].
Qed.

Lemma quote_app (a b : string) : quote (a ++ b) = quote a ++ quote b.
Proof.
  unfold quote. induction a as [|c a IH]; [reflexivity |].
  cbn [append quote_from_bytes]. now rewrite IH, append_assoc.
Qed.

Section Queries.
Context `{N : Enums}.

(** Looking a key up in keyword arguments written out. *)
Ltac lookup_kwargs H :=
  repeat first
    [ rewrite lookup_insert_eq in H
    | rewrite lookup_insert_ne in H by discriminate
    | rewrite lookup_singleton_eq in H ].

Lemma Route_search (text : string) (order : Order) (count page : Z) :
  Route.__init__ "GET"
    "/v2/gifs/search?search_text={search_text}&order={order}&count={count}&page={page}"
    {[ "search_text" := VStr text; "order" := VStr (Order_value order);
       "count" := VInt count; "page" := VInt page ]} =
  Return {| Route.method := "GET";
            Route.path :=
              "/v2/gifs/search?search_text={search_text}&order={order}&count={count}&page={page}";
            Route.url :=
              "https://api.redgifs.com/v2/gifs/search?search_text=" ++ quote text ++
              "&order=" ++ quote (Order_value order) ++
              "&count=" ++ str_of_int count ++ "&page=" ++ str_of_int page |}.
Proof.
  pose proof (Route_with_parameters "GET"
                [Text "/v2/gifs/search?search_text="; Placeholder "search_text";
                 Text "&order="; Placeholder "order"; Text "&count="; Placeholder "count";
                 Text "&page="; Placeholder "page"]
                {[ "search_text" := VStr text; "order" := VStr (Order_value order);
                   "count" := VInt count; "page" := VInt page ]}
                eq_refl (insert_non_empty _ _ _)) as H.
  cbn [first_missing substituted] in H. lookup_kwargs H.
  cbn [value_text] in H. rewrite append_empty_r in H. exact H.
Qed.

Lemma Route_search_image (text : string) (order : Order) (count page : Z) :
  Route.__init__ "GET"
    "/v2/gifs/search?search_text={search_text}&order={order}&count={count}&page={page}&type=i"
    {[ "search_text" := VStr text; "order" := VStr (Order_value order);
       "count" := VInt count; "page" := VInt page ]} =
  Return {| Route.method := "GET";
            Route.path :=
              "/v2/gifs/search?search_text={search_text}&order={order}&count={count}&page={page}&type=i";
            Route.url :=
              "https://api.redgifs.com/v2/gifs/search?search_text=" ++ quote text ++
              "&order=" ++ quote (Order_value order) ++
              "&count=" ++ str_of_int count ++ "&page=" ++ str_of_int page ++ "&type=i" |}.
Proof.
  pose proof (Route_with_parameters "GET"
                [Text "/v2/gifs/search?search_text="; Placeholder "search_text";
                 Text "&order="; Placeholder "order"; Text "&count="; Placeholder "count";
                 Text "&page="; Placeholder "page"; Text "&type=i"]
                {[ "search_text" := VStr text; "order" := VStr (Order_value order);
                   "count" := VInt count; "page" := VInt page ]}
                eq_refl (insert_non_empty _ _ _)) as H.
  cbn [first_missing substituted] in H. lookup_kwargs H.
  cbn [value_text] in H. exact H.
Qed.

End Queries.

(** [search] sends the route of
    [/v2/gifs/search?search_text=..&order=..&count=..&page=..] with the text
    and the order token percent-encoded and the numbers in decimal.
    Whatever the search text is, it cannot add to the query: the URL has
    one [?], three [&], four [=] and no [#]. *)
Theorem search_query_closed `{N : Enums}
    (self_request : Route.t -> kwargs_t -> M pyobject)
    (text : string) (order : Order) (count page : Z) (params : kwargs_t) (w : World) :
  let url :=
    "https://api.redgifs.com/v2/gifs/search?search_text=" ++ quote text ++
    "&order=" ++ quote (Order_value order) ++
    "&count=" ++ str_of_int count ++ "&page=" ++ str_of_int page in
  search self_request (inl text) order count page params w =
    self_request
      {| Route.method := "GET";
         Route.path :=
           "/v2/gifs/search?search_text={search_text}&order={order}&count={count}&page={page}";
         Route.url := url |} params w
  /\ count_char "?" url = 1 /\ count_char "&" url = 3
  /\ count_char "=" url = 4 /\ count_char "#" url = 0.
Proof.
  intros url. split.
  - unfold search. rewrite bind_lift, Route_search. reflexivity.
  - subst url.
    repeat split; rewrite !count_char_app, !count_char_quote, !count_char_int
      by reflexivity; reflexivity.
Qed.

(** [search_image] sends what [search] sends with [&type=i] at the end of
    the path and of the URL. *)
Theorem search_image_appends_type `{N : Enums}
    (self_request : Route.t -> kwargs_t -> M pyobject)
    (text : string) (order : Order) (count page : Z) (params : kwargs_t) (w : World) :
  let r :=
    {| Route.method := "GET";
       Route.path :=
         "/v2/gifs/search?search_text={search_text}&order={order}&count={count}&page={page}";
       Route.url :=
         "https://api.redgifs.com/v2/gifs/search?search_text=" ++ quote text ++
         "&order=" ++ quote (Order_value order) ++
         "&count=" ++ str_of_int count ++ "&page=" ++ str_of_int page |} in
  search self_request (inl text) order count page params w = self_request r params w /\
  search_image self_request (inl text) order count page params w =
    self_request
      {| Route.method := "GET";
         Route.path := Route.path r ++ "&type=i";
         Route.url := Route.url r ++ "&type=i" |} params w.
Proof.
  intros r. split.
  - unfold search. rewrite bind_lift, Route_search. reflexivity.
  - unfold search_image. rewrite bind_lift, Route_search_image.
    subst r. cbn [Route.path Route.url outcome_bind].
    now rewrite !append_assoc.
Qed.

Lemma quote_join (l : list string) :
  quote (str_join "," l) = str_join "%2C" (map quote l).
Proof.
  induction l as [|s l IH]; [reflexivity |].
  destruct l as [|s' l]; [reflexivity |].
  change (str_join "," (s :: s' :: l)) with (s ++ "," ++ str_join "," (s' :: l)).
  change (str_join "%2C" (map quote (s :: s' :: l)))
    with (quote s ++ "%2C" ++ str_join "%2C" (map quote (s' :: l))).
  now rewrite !quote_app, IH.
Qed.

Section Creators.
Context `{N : Enums}.

Ltac lookup_kwargs H :=
  repeat first
    [ rewrite lookup_insert_eq in H
    | rewrite lookup_insert_ne in H by discriminate
    | rewrite lookup_singleton_eq in H ].

Lemma Route_creators (page : Z) (order : Order) (verified : bool) :
  Route.__init__ "GET"
    "/v1/creators/search?page={page}&order={order}&verified={verified}"
    {[ "page" := VInt page; "order" := VStr (Order_value order);
       "verified" := VBool verified ]} =
  Return {| Route.method := "GET";
            Route.path := "/v1/creators/search?page={page}&order={order}&verified={verified}";
            Route.url :=
              "https://api.redgifs.com/v1/creators/search?page=" ++ str_of_int page ++
              "&order=" ++ quote (Order_value order) ++
              "&verified=" ++ (if verified then "True" else "False") |}.
Proof.
  pose proof (Route_with_parameters "GET"
                [Text "/v1/creators/search?page="; Placeholder "page";
                 Text "&order="; Placeholder "order"; Text "&verified=";
                 Placeholder "verified"]
                {[ "page" := VInt page; "order" := VStr (Order_value order);
                   "verified" := VBool verified ]}
                eq_refl (insert_non_empty _ _ _)) as H.
  cbn [first_missing substituted] in H. lookup_kwargs H.
  cbn [value_text] in H. rewrite append_empty_r in H.
  destruct verified; exact H.
Qed.

Lemma Route_creators_tags (page : Z) (order : Order) (verified : bool) (joined : string) :
  Route.__init__ "GET"
    "/v1/creators/search?page={page}&order={order}&verified={verified}&tags={tags}"
    {[ "page" := VInt page; "order" := VStr (Order_value order);
       "verified" := VBool verified; "tags" := VStr joined ]} =
  Return {| Route.method := "GET";
            Route.path :=
              "/v1/creators/search?page={page}&order={order}&verified={verified}&tags={tags}";
            Route.url :=
              "https://api.redgifs.com/v1/creators/search?page=" ++ str_of_int page ++
              "&order=" ++ quote (Order_value order) ++
              "&verified=" ++ (if verified then "True" else "False") ++
              "&tags=" ++ quote joined |}.
Proof.
  pose proof (Route_with_parameters "GET"
                [Text "/v1/creators/search?page="; Placeholder "page";
                 Text "&order="; Placeholder "order"; Text "&verified=";
                 Placeholder "verified"; Text "&tags="; Placeholder "tags"]
                {[ "page" := VInt page; "order" := VStr (Order_value order);
                   "verified" := VBool verified; "tags" := VStr joined ]}
                eq_refl (insert_non_empty _ _ _)) as H.
  cbn [first_missing substituted] in H. lookup_kwargs H.
  cbn [value_text] in H. rewrite append_empty_r in H.
  destruct verified; exact H.
Qed.

Lemma joined_tags_strings (tags : list (string + Tags)) (ss : list string) :
  tags <> [] -> all_strings tags = Some ss ->
  joined_tags tags = Return (str_join "," ss).
Proof.
  intros Hne Hss. destruct tags as [|[s | t] tags]; [congruence | | discriminate].
  unfold joined_tags. now rewrite Hss.
Qed.

Lemma joined_tags_members (tags : list (string + Tags)) (ts : list Tags) :
  tags <> [] -> all_members tags = Some ts ->
  joined_tags tags = Return (str_join "," (map Tags_value ts)).
Proof.
  intros Hne Hts. destruct tags as [|[s | t] tags]; [congruence | discriminate |].
  unfold joined_tags. now rewrite Hts.
Qed.

End Creators.

(** [search_creators] without tags ([None] or an empty list) sends a query
    of [page], [order] and [verified] with no [tags] in it; the flag
    [verified] is written [True] or [False], as Python prints it. *)
Theorem search_creators_without_tags `{N : Enums}
    (self_request : Route.t -> kwargs_t -> M pyobject)
    (page : Z) (order : Order) (verified : bool)
    (tags : option (list (string + Tags))) (params : kwargs_t) (w : World) :
  tags = None \/ tags = Some [] ->
  search_creators self_request page order verified tags params w =
  self_request
    {| Route.method := "GET";
       Route.path := "/v1/creators/search?page={page}&order={order}&verified={verified}";
       Route.url :=
         "https://api.redgifs.com/v1/creators/search?page=" ++ str_of_int page ++
         "&order=" ++ quote (Order_value order) ++
         "&verified=" ++ (if verified then "True" else "False") |} params w.
Proof.
  intros [-> | ->]; unfold search_creators;
    rewrite bind_lift, Route_creators; reflexivity.
Qed.

(** [search_creators] with tags joins them with commas (the values of the
    members, or the strings themselves) and percent-encodes the joined
    text as one value: the tags arrive percent-encoded one by one and
    separated by [%2C], not by commas. *)
Theorem search_creators_with_tags `{N : Enums}
    (self_request : Route.t -> kwargs_t -> M pyobject)
    (page : Z) (order : Order) (verified : bool)
    (tags : list (string + Tags)) (names : list string) (params : kwargs_t) (w : World) :
  tags <> [] ->
  all_strings tags = Some names \/
  (exists ts, all_members tags = Some ts /\ names = map Tags_value ts) ->
  search_creators self_request page order verified (Some tags) params w =
  self_request
    {| Route.method := "GET";
       Route.path :=
         "/v1/creators/search?page={page}&order={order}&verified={verified}&tags={tags}";
       Route.url :=
         "https://api.redgifs.com/v1/creators/search?page=" ++ str_of_int page ++
         "&order=" ++ quote (Order_value order) ++
         "&verified=" ++ (if verified then "True" else "False") ++
         "&tags=" ++ str_join "%2C" (map quote names) |} params w.
Proof.
  intros Hne Hnames.
  assert (joined_tags tags = Return (str_join "," names)) as Hjoin.
  { destruct Hnames as [Hss | (ts & Hts & ->)].
    - now apply joined_tags_strings.
    - now apply joined_tags_members. }
  unfold search_creators. destruct tags as [|t tags]; [congruence |].
  rewrite bind_run. unfold bind at 1. unfold lift at 1. rewrite Hjoin.
  unfold lift at 1. rewrite Route_creators_tags, quote_join. reflexivity.
Qed.

Lemma search_creators_without_tags_witness :
  let N := SampleEnums.enums in
  let sr := HTTP.self_request (E := Sample.externals) Sample.http in
  search_creators (N := N) sr 2 SampleEnums.latest true (Some []) [] Sample.world =
  sr {| Route.method := "GET";
        Route.path := "/v1/creators/search?page={page}&order={order}&verified={verified}";
        Route.url := "https://api.redgifs.com/v1/creators/search?page=2&order=latest&verified=True" |}
     [] Sample.world.
Proof.
  intros N sr.
  exact (search_creators_without_tags (N := N) sr 2 SampleEnums.latest true (Some []) []
           Sample.world (or_intror eq_refl)).
Defined.

Lemma search_creators_with_tags_witness :
  let N := SampleEnums.enums in
  let sr := HTTP.self_request (E := Sample.externals) Sample.http in
  let tags := [inr SampleEnums.outdoor; inr SampleEnums.funny] in
  tags <> [] /\
  all_members (N := N) tags = Some [SampleEnums.outdoor; SampleEnums.funny] /\
  search_creators (N := N) sr 1 SampleEnums.trending false (Some tags) [] Sample.world =
  sr {| Route.method := "GET";
        Route.path :=
          "/v1/creators/search?page={page}&order={order}&verified={verified}&tags={tags}";
        Route.url :=
          "https://api.redgifs.com/v1/creators/search?page=1&order=trending&verified=False&tags=Outdoor%2CFunny%20Cats" |}
     [] Sample.world.
Proof.
  intros N sr tags. split; [discriminate |]. split; [reflexivity |].
  refine (search_creators_with_tags (N := N) sr 1 SampleEnums.trending false tags
            ["Outdoor"; "Funny Cats"] [] Sample.world _ _).
  - discriminate.
  - right. exists [SampleEnums.outdoor; SampleEnums.funny]. split; reflexivity.
Defined.

(** ** request sends once *)

Lemma request_sends_once_sync `{E : Externals} (self : HTTP.t) (route : Route.t)
    (kwargs : kwargs_t) (w : World) :
  snd (HTTP.request self route kwargs w) =
  if clashes ["method"; "url"; "headers"; "proxies"; "auth"; "timeout"] kwargs
  then w else record (Call (HTTP_request_call self route kwargs)) w.
Proof.
  unfold HTTP.request, HTTP_request_call, check_kwargs, bind, perform, ret, raise.
  destruct (clashes _ kwargs); [reflexivity |]. cbn [snd].
  destruct (respond _ _) as [r |]; [| reflexivity].
  destruct (json_body r); [destruct (_ =? _)%Z |]; reflexivity.
Qed.

Lemma request_sends_once_async `{E : Externals} (aself : AsyncHttp.t) (route : Route.t)
    (kwargs : kwargs_t) (w : World) :
  snd (AsyncHttp.request aself route kwargs w) =
  if clashes ["method"; "url"; "headers"; "proxy"; "proxy_auth"] kwargs
  then w else record (Call (AsyncHttp_request_call aself route kwargs)) w.
Proof.
  unfold AsyncHttp.request, AsyncHttp_request_call, check_kwargs, bind, perform, ret, raise.
  destruct (clashes _ kwargs); [reflexivity |]. cbn [snd].
  destruct (respond _ _) as [r |]; [| reflexivity].
  destruct (json_body r); [destruct (_ =? _)%Z |]; reflexivity.
Qed.

(** A keyword that every session takes clashes with none that [request]
    passes itself. *)
Lemma plain_no_clash (taken : list string) (kwargs : kwargs_t) :
  forallb (fun k => negb (existsb (String.eqb k) plain_keywords)) taken = true ->
  plain kwargs = true -> clashes taken kwargs = false.
Proof.
  intros Ht Hp. unfold clashes. apply not_true_is_false. intros Hc.
  apply existsb_exists in Hc as ([k v] & Hin & Hk).
  apply existsb_exists in Hk as (t & Ht' & Heq). cbn in Heq.
  apply String.eqb_eq in Heq. subst t.
  unfold plain in Hp. rewrite forallb_forall in Hp. specialize (Hp _ Hin). cbn [fst] in Hp.
  rewrite forallb_forall in Ht. specialize (Ht _ Ht'). cbn beta in Ht.
  rewrite Hp in Ht. discriminate.
Qed.

(** [request] calls the session once and never again.  With keyword
    arguments that the session takes ([params], [data], [json],
    [cookies], [allow_redirects]), or none, the world after it is the
    world before it with this one call recorded, whatever the answer and
    also when [request] raises: no second call, no file and no sink
    touched.  With a keyword argument that [request] passes itself it
    raises [TypeError] and the world is as before: the session was not
    called.  Both transports. *)
Theorem request_sends_once `{E : Externals} (self : HTTP.t) (aself : AsyncHttp.t)
    (route : Route.t) (kwargs : kwargs_t) (w : World) :
  (plain kwargs = true ->
   snd (HTTP.request self route kwargs w) =
     record (Call (HTTP_request_call self route kwargs)) w /\
   snd (await (AsyncHttp.request aself route kwargs) w) =
     record (Call (AsyncHttp_request_call aself route kwargs)) w)
  /\
  (clashes ["method"; "url"; "headers"; "proxies"; "auth"; "timeout"] kwargs = true ->
   snd (HTTP.request self route kwargs w) = w /\
   exists message, fst (HTTP.request self route kwargs w) = Raise (TypeError message))
  /\
  (clashes ["method"; "url"; "headers"; "proxy"; "proxy_auth"] kwargs = true ->
   snd (await (AsyncHttp.request aself route kwargs) w) = w /\
   exists message,
     fst (await (AsyncHttp.request aself route kwargs) w) = Raise (TypeError message)).
Proof.
  split; [| split].
  - intros Hp. split.
    + rewrite request_sends_once_sync, plain_no_clash; [reflexivity .. | exact Hp].
    + unfold await. rewrite request_sends_once_async, plain_no_clash;
        [reflexivity .. | exact Hp].
  - intros Hc. split.
    + now rewrite request_sends_once_sync, Hc.
    + unfold HTTP.request, check_kwargs, bind, raise. rewrite Hc. eauto.
  - intros Hc. split.
    + unfold await. now rewrite request_sends_once_async, Hc.
    + unfold await, AsyncHttp.request, check_kwargs, bind, raise. rewrite Hc. eauto.
Qed.

(** A request with [params] to the gateway, which answers 502 with a page
    that is not JSON: one call; and one with [headers], which [request]
    passes itself: none. *)
Lemma request_sends_once_witness :
  let kwargs := [("params", VStr "a=b")] in
  let clash := [("headers", VStr "x")] in
  let call := HTTP_request_call Sample.http Gateway.route kwargs in
  let acall := AsyncHttp_request_call Sample.async_http Gateway.route kwargs in
  plain kwargs = true /\
  events (snd (HTTP.request (E := Gateway.externals) Sample.http Gateway.route kwargs
                 Sample.world)) = [Call call] /\
  events (snd (await (AsyncHttp.request (E := Gateway.externals) Sample.async_http
                        Gateway.route kwargs) Sample.world)) = [Call acall] /\
  snd (HTTP.request (E := Gateway.externals) Sample.http Gateway.route clash Sample.world)
    = Sample.world /\
  snd (await (AsyncHttp.request (E := Gateway.externals) Sample.async_http Gateway.route
                clash) Sample.world)
    = Sample.world.
Proof.
  intros kwargs clash call acall. split; [reflexivity |].
  destruct (request_sends_once (E := Gateway.externals) Sample.http Sample.async_http
              Gateway.route kwargs Sample.world) as [Hp _].
  destruct (Hp eq_refl) as [Hs Ha].
  destruct (request_sends_once (E := Gateway.externals) Sample.http Sample.async_http
              Gateway.route clash Sample.world) as (_ & Hcs & Hca).
  split; [now rewrite Hs |]. split; [now rewrite Ha |].
  split; [exact (proj1 (Hcs eq_refl)) | exact (proj1 (Hca eq_refl))].
Defined.

(** [get_tags] does not pass its keyword arguments on: whatever they are,
    also one with which [request] would refuse to send, it sends
    [GET /v1/tags] with no extra argument; [get_gif] passes them on, and
    with a clashing one it raises [TypeError] and sends nothing. *)
Theorem get_tags_drops_params `{E : Externals} (self : HTTP.t) (id : string)
    (params : kwargs_t) (w : World) :
  let tags_route :=
    {| Route.method := "GET"; Route.path := "/v1/tags";
       Route.url := "https://api.redgifs.com/v1/tags" |} in
  get_tags (HTTP.self_request self) params w = HTTP.self_request self tags_route [] w /\
  snd (get_tags (HTTP.self_request self) params w) =
    record (Call (HTTP_request_call self tags_route [])) w /\
  (clashes ["method"; "url"; "headers"; "proxies"; "auth"; "timeout"] params = true ->
   get_gif (HTTP.self_request self) id params w =
     (Raise (TypeError "got multiple values for keyword argument"), w)).
Proof.
  intros tags_route.
  assert (get_tags (HTTP.self_request self) params w
          = HTTP.self_request self tags_route [] w) as Hrun by reflexivity.
  split; [exact Hrun |]. split.
  - rewrite Hrun. unfold HTTP.self_request. rewrite bind_run.
    pose proof (request_sends_once_sync self tags_route [] w) as Hw.
    destruct (HTTP.request self tags_route [] w) as [[js | e |] w']; exact Hw.
  - intros Hclash. unfold get_gif. rewrite bind_lift, Route_get_gif.
    unfold HTTP.self_request, HTTP.request, check_kwargs, bind, raise.
    cbn [Route.url Route.method]. now rewrite Hclash.
Qed.

(** ** One session and one set of headers *)

Section Keeps.
Context `{E : Externals}.

Ltac keeps_step :=
  first
    [ apply only_ret | apply only_raise | apply only_lift | apply only_check_kwargs
    | apply only_perform; cbn; split; reflexivity
    | apply only_open_wb; exact I
    | apply only_file_write; exact I
    | apply only_file_close; exact I
    | apply only_sink_write; exact I ].

Lemma HTTP_request_keeps (self : HTTP.t) (route : Route.t) (kwargs : kwargs_t) :
  only (keeps_to (HTTP.__session self) (HTTP.headers self)) (HTTP.request self route kwargs).
Proof.
  unfold HTTP.request. apply only_bind; [keeps_step | intros _].
  apply only_bind; [keeps_step | intros r].
  destruct (json_body r); [destruct (_ =? _)%Z |]; keeps_step.
Qed.

Lemma AsyncHttp_request_keeps (self : AsyncHttp.t) (route : Route.t) (kwargs : kwargs_t) :
  only (keeps_to (AsyncHttp.__session self) (AsyncHttp.headers self))
    (AsyncHttp.request self route kwargs).
Proof.
  unfold AsyncHttp.request. apply only_bind; [keeps_step | intros _].
  apply only_bind; [keeps_step | intros r].
  destruct (json_body r); [destruct (_ =? _)%Z |]; keeps_step.
Qed.

Lemma HTTP_dl_keeps (self : HTTP.t) (fp : target) (u : string) :
  only (keeps_to (HTTP.__session self) (HTTP.headers self)) (HTTP.dl self fp u).
Proof.
  unfold HTTP.dl. apply only_bind; [keeps_step | intros r].
  destruct fp; [| keeps_step].
  apply only_bind; [keeps_step | intros _].
  apply only_bind; [keeps_step | intros n].
  apply only_bind; [keeps_step | intros _]. keeps_step.
Qed.

Lemma AsyncHttp_dl_keeps (self : AsyncHttp.t) (fp : target) (u : string) :
  only (keeps_to (AsyncHttp.__session self) (AsyncHttp.headers self))
    (AsyncHttp.dl self fp u).
Proof.
  unfold AsyncHttp.dl. apply only_bind; [keeps_step | intros r].
  destruct fp; [| keeps_step].
  apply only_bind; [keeps_step | intros _].
  apply only_bind; [keeps_step | intros n].
  apply only_bind; [keeps_step | intros _]. keeps_step.
Qed.

Lemma HTTP_download_keeps (self : HTTP.t) (url : string) (fp : target) :
  only (keeps_to (HTTP.__session self) (HTTP.headers self)) (HTTP.download self url fp).
Proof.
  unfold HTTP.download. apply only_bind; [keeps_step | intros y].
  destruct (forallb _ _).
  { destruct (REDGIFS_THUMBS_RE _); [apply HTTP_dl_keeps | keeps_step]. }
  destruct (str_in _ _); [| keeps_step].
  apply only_bind; [| intros js].
  { unfold get_gif, HTTP.self_request. apply only_bind; [keeps_step | intros r].
    apply only_bind; [apply HTTP_request_keeps | intros js; keeps_step]. }
  apply only_bind; [keeps_step | intros gif].
  apply only_bind; [keeps_step | intros urls].
  apply only_bind; [keeps_step | intros hd_url].
  destruct hd_url as [[] |]; try apply HTTP_dl_keeps; keeps_step.
Qed.

Lemma AsyncHttp_download_keeps (self : AsyncHttp.t) (url : string) (fp : target) :
  only (keeps_to (AsyncHttp.__session self) (AsyncHttp.headers self))
    (AsyncHttp.download self url fp).
Proof.
  unfold AsyncHttp.download, await. apply only_bind; [keeps_step | intros y].
  destruct (forallb _ _).
  { destruct (REDGIFS_THUMBS_RE _); [apply AsyncHttp_dl_keeps | keeps_step]. }
  destruct (str_in _ _); [| keeps_step].
  apply only_bind; [| intros co].
  { unfold get_gif, AsyncHttp.self_request.
    apply only_bind; [keeps_step | intros r; keeps_step]. }
  apply only_bind; [keeps_step | intros gif].
  apply only_bind; [keeps_step | intros urls].
  apply only_bind; [keeps_step | intros hd_url].
  destruct hd_url as [[] |]; try apply AsyncHttp_dl_keeps; keeps_step.
Qed.

End Keeps.

(** Everything a transport sends goes through its one session with its
    one set of headers: each call made by [request] or [download] names
    the session and the headers of the transport, and neither of them
    creates or closes a session.  Both transports. *)
Theorem transport_keeps_session `{E : Externals} (self : HTTP.t) (aself : AsyncHttp.t)
    (route : Route.t) (kwargs : kwargs_t) (url : string) (fp : target) :
  only (keeps_to (HTTP.__session self) (HTTP.headers self))
    (HTTP.request self route kwargs) /\
  only (keeps_to (HTTP.__session self) (HTTP.headers self))
    (HTTP.download self url fp) /\
  only (keeps_to (AsyncHttp.__session aself) (AsyncHttp.headers aself))
    (await (AsyncHttp.request aself route kwargs)) /\
  only (keeps_to (AsyncHttp.__session aself) (AsyncHttp.headers aself))
    (await (AsyncHttp.download aself url fp)).
Proof.
  split; [apply HTTP_request_keeps |].
  split; [apply HTTP_download_keeps |].
  split; [apply AsyncHttp_request_keeps | apply AsyncHttp_download_keeps].
Qed.

(** ** Construction with a proxy *)



(** ** dl and download when something fails *)

Section Failing.
Context `{E : Externals}.

(** The runs of [dl]: it returns the length of what it wrote, or the world
    is the one before with the request recorded. *)
Lemma HTTP_dl_cases (self : HTTP.t) (fp : target) (u : string) (w : World) :
  let c := requests_get (HTTP.__session self) u (HTTP.headers self) in
  (exists r, respond (events w) c = Some r /\ ready fp w /\
     HTTP.dl self fp u w = (Return (len (content r)), after_download c fp (content r) w))
  \/
  ((forall n, fst (HTTP.dl self fp u w) <> Return n) /\
   snd (HTTP.dl self fp u w) = record (Call c) w).
Proof.
  intros c. destruct (respond (events w) c) as [r |] eqn:Hr.
  - assert (ready fp w \/ ~ ready fp w) as [Hready | Hnot].
    { destruct fp as [p | id]; cbn.
      - destruct (decide (p ∈ denied w)); [right | left]; tauto.
      - destruct (sinks w !! id) as [s |] eqn:Hs.
        + destruct (closed s) eqn:Hc.
          * right. intros (s' & [= <-] & Hs'). congruence.
          * left. now exists s.
        + right. now intros (s' & [=] & _). }
    + left. exists r. split; [reflexivity |]. split; [exact Hready |].
      now apply HTTP_dl_ready.
    + right. unfold HTTP.dl, bind, perform. fold c. rewrite Hr.
      destruct fp as [p | id]; cbn in Hnot.
      * unfold open_wb. cbn [denied record].
        rewrite bool_decide_eq_true_2 by (destruct (decide (p ∈ denied w)); tauto).
        now split.
      * unfold sink_write. cbn [sinks record].
        destruct (sinks w !! id) as [s |] eqn:Hs; [| now split].
        destruct (closed s) eqn:Hc; [now split |].
        exfalso. apply Hnot. now exists s.
  - right. unfold HTTP.dl, bind, perform. fold c. rewrite Hr. now split.
Qed.

Lemma AsyncHttp_dl_cases (self : AsyncHttp.t) (fp : target) (u : string) (w : World) :
  let c := aiohttp_get (AsyncHttp.__session self) u (AsyncHttp.headers self) in
  (exists r, respond (events w) c = Some r /\ ready fp w /\
     AsyncHttp.dl self fp u w =
       (Return (len (content r)), after_download c fp (content r) w))
  \/
  ((forall n, fst (AsyncHttp.dl self fp u w) <> Return n) /\
   snd (AsyncHttp.dl self fp u w) = record (Call c) w).
Proof.
  intros c. destruct (respond (events w) c) as [r |] eqn:Hr.
  - assert (ready fp w \/ ~ ready fp w) as [Hready | Hnot].
    { destruct fp as [p | id]; cbn.
      - destruct (decide (p ∈ denied w)); [right | left]; tauto.
      - destruct (sinks w !! id) as [s |] eqn:Hs.
        + destruct (closed s) eqn:Hc.
          * right. intros (s' & [= <-] & Hs'). congruence.
          * left. now exists s.
        + right. now intros (s' & [=] & _). }
    + left. exists r. split; [reflexivity |]. split; [exact Hready |].
      now apply AsyncHttp_dl_ready.
    + right. unfold AsyncHttp.dl, bind, perform. fold c. rewrite Hr.
      destruct fp as [p | id]; cbn in Hnot.
      * unfold open_wb. cbn [denied record].
        rewrite bool_decide_eq_true_2 by (destruct (decide (p ∈ denied w)); tauto).
        now split.
      * unfold sink_write. cbn [sinks record].
        destruct (sinks w !! id) as [s |] eqn:Hs; [| now split].
        destruct (closed s) eqn:Hc; [now split |].
        exfalso. apply Hnot. now exists s.
  - right. unfold AsyncHttp.dl, bind, perform. fold c. rewrite Hr. now split.
Qed.

End Failing.

(** [dl] fetches before it opens the target.  So when the fetch fails,
    or the path cannot be opened, or the sink is closed, [dl] returns no
    byte count and the target is as it was: the world is the one before
    with the request recorded, and an existing file has not been
    truncated.  Both transports. *)
Theorem dl_fails_before_writing `{E : Externals} (self : HTTP.t) (aself : AsyncHttp.t)
    (fp : target) (u : string) (w : World) :
  let get := requests_get (HTTP.__session self) u (HTTP.headers self) in
  let aget := aiohttp_get (AsyncHttp.__session aself) u (AsyncHttp.headers aself) in
  (respond (events w) get = None \/ ~ ready fp w ->
   (forall n, fst (HTTP.dl self fp u w) <> Return n) /\
   snd (HTTP.dl self fp u w) = record (Call get) w)
  /\
  (respond (events w) aget = None \/ ~ ready fp w ->
   (forall n, fst (await (AsyncHttp.dl aself fp u) w) <> Return n) /\
   snd (await (AsyncHttp.dl aself fp u) w) = record (Call aget) w).
Proof.
  intros get aget. split; intros Hfail.
  - destruct (HTTP_dl_cases self fp u w) as [(r & Hr & Hready & _) | Hstop];
      [| exact Hstop].
    fold get in Hr. destruct Hfail as [Hnone | Hnot]; [congruence | tauto].
  - destruct (AsyncHttp_dl_cases aself fp u w) as [(r & Hr & Hready & _) | Hstop];
      [| exact Hstop].
    fold aget in Hr. destruct Hfail as [Hnone | Hnot]; [congruence | tauto].
Qed.

(** A file that exists and cannot be opened for writing keeps what it
    held. *)
Lemma dl_fails_before_writing_witness :
  let w := {| events := []; files := {[ "out.mp4" := "old" ]}; denied := {[ "out.mp4" ]};
              sinks := ∅; next_session := 0 |} in
  let get := requests_get (HTTP.__session Sample.http) Sample.hd_url
               (HTTP.headers Sample.http) in
  let aget := aiohttp_get (AsyncHttp.__session Sample.async_http) Sample.hd_url
                (AsyncHttp.headers Sample.async_http) in
  ~ ready (Path "out.mp4") w /\
  snd (HTTP.dl (E := Sample.externals) Sample.http (Path "out.mp4") Sample.hd_url w)
    = record (Call get) w /\
  snd (await (AsyncHttp.dl (E := Sample.externals) Sample.async_http (Path "out.mp4")
                Sample.hd_url) w)
    = record (Call aget) w /\
  files (record (Call get) w) !! "out.mp4" = Some "old".
Proof.
  intros w get aget.
  assert (~ ready (Path "out.mp4") w) as Hnot.
  { intros Hready. apply Hready. cbn. set_solver. }
  split; [exact Hnot |].
  destruct (dl_fails_before_writing (E := Sample.externals) Sample.http Sample.async_http
              (Path "out.mp4") Sample.hd_url w) as [Hs Ha].
  split; [exact (proj2 (Hs (or_intror Hnot))) |].
  split; [exact (proj2 (Ha (or_intror Hnot))) |].
  reflexivity.
Defined.

(** ** download leaves everything but its target alone *)

Section Frame.
Context `{E : Externals}.

Lemma same_but_after_download (c : call) (fp : target) (data : string) (w : World) :
  same_but fp w (after_download c fp data w).
Proof.
  split; [reflexivity |]. destruct fp as [p | id]; cbn.
  - split; [reflexivity |]. intros q Hq. now rewrite lookup_insert_ne.
  - split; [reflexivity |]. intros j Hj.
    destruct (sinks w !! id); [now rewrite lookup_insert_ne | reflexivity].
Qed.

Lemma same_but_calls_only (fp : target) (w w1 w' : World) :
  calls_only w w1 -> same_but fp w1 w' -> same_but fp w w'.
Proof.
  intros (_ & Hf & Hd & Hs) [Hd' Hfp]. split; [congruence |].
  destruct fp as [p | id]; destruct Hfp as [H1 H2].
  - split; [congruence |]. intros q Hq. rewrite (H2 q Hq). now rewrite Hf.
  - split; [congruence |]. intros j Hj. rewrite (H2 j Hj). now rewrite Hs.
Qed.

Lemma same_but_refl (fp : target) (w : World) : same_but fp w w.
Proof. split; [reflexivity |]. now destruct fp. Qed.

Lemma same_but_record (fp : target) (e : event) (w : World) : same_but fp w (record e w).
Proof. split; [reflexivity |]. now destruct fp. Qed.

Lemma HTTP_dl_same_but (self : HTTP.t) (fp : target) (u : string) (w : World) :
  same_but fp w (snd (HTTP.dl self fp u w)).
Proof.
  destruct (HTTP_dl_cases self fp u w) as [(r & _ & _ & ->) | [_ ->]].
  - apply same_but_after_download.
  - apply same_but_record.
Qed.

Lemma AsyncHttp_dl_same_but (self : AsyncHttp.t) (fp : target) (u : string) (w : World) :
  same_but fp w (snd (AsyncHttp.dl self fp u w)).
Proof.
  destruct (AsyncHttp_dl_cases self fp u w) as [(r & _ & _ & ->) | [_ ->]].
  - apply same_but_after_download.
  - apply same_but_record.
Qed.

End Frame.

(** Whatever the URL and whatever happens, [download] changes no file
    other than the path it was given and no sink other than the one it was
    given: with a path as target every sink and every other file is as
    before, with a sink as target every file and every other sink is.  Both
    transports. *)
Theorem download_touches_target_only `{E : Externals} (self : HTTP.t) (aself : AsyncHttp.t)
    (url : string) (fp : target) (w : World) :
  same_but fp w (snd (HTTP.download self url fp w)) /\
  same_but fp w (snd (await (AsyncHttp.download aself url fp) w)).
Proof.
  split.
  - destruct (HTTP_download_through_dl self url fp w) as [(u & w1 & Hw1 & ->) | Hw'].
    + apply (same_but_calls_only fp w w1); [exact Hw1 | apply HTTP_dl_same_but].
    + apply (same_but_calls_only fp w _ _ Hw'), same_but_refl.
  - destruct (AsyncHttp_download_through_dl aself url fp w)
      as [(u & w1 & Hw1 & ->) | Hw'].
    + apply (same_but_calls_only fp w w1); [exact Hw1 | apply AsyncHttp_dl_same_but].
    + apply (same_but_calls_only fp w _ _ Hw'), same_but_refl.
Qed.

(** ** The lookup of a watch page *)

Lemma getitem_of_json (js : json) (key : string) :
  (exists v, field key js = Some v /\ getitem (of_json js) key = Return (of_json v))
  \/ (field key js = None /\ exists e, getitem (of_json js) key = Raise e).
Proof.
  destruct js; cbn; try (right; split; [reflexivity | eexists; reflexivity]).
  destruct (dict_get fields key) as [v |].
  - left. now exists v.
  - right. split; [reflexivity | eexists; reflexivity].
Qed.

Lemma HTTP_request_cases `{E : Externals} (self : HTTP.t) (route : Route.t) (w : World) :
  let c := HTTP_request_call self route [] in
  HTTP.request self route [] w =
  match respond (events w) c with
  | None => (Raise TransportError, record (Call c) w)
  | Some r =>
      match json_body r with
      | None => (Raise JSONDecodeError, record (Call c) w)
      | Some js =>
          if (status_code r =? 200)%Z then (Return js, record (Call c) w)
          else (Raise (HTTPException r js), record (Call c) w)
      end
  end.
Proof.
  intros c. unfold HTTP.request, check_kwargs, bind, perform, ret, raise.
  cbn [clashes existsb]. fold (HTTP_request_call self route []). fold c.
  destruct (respond (events w) c) as [r |]; [| reflexivity].
  destruct (json_body r); [destruct (_ =? _)%Z |]; reflexivity.
Qed.

(** On a watch page the blocking [download] sends the lookup of the
    stripped path first.  Either the lookup is answered with status 200
    and a body that has a string at [gif.urls.hd], and [download] goes on
    with [dl] on that string; or [download] does not return a byte count,
    and nothing but the lookup happened: nothing is fetched, and the
    target is not opened or written. *)
Theorem download_watch_lookup `{E : Externals} (self : HTTP.t) (url : string)
    (y : yarl.URL) (fp : target) (w : World) :
  yarl_URL url = Return y ->
  thumbs_host y = false ->
  watch_page_grammar y = true ->
  let lookup :=
    HTTP_request_call self
      {| Route.method := "GET"; Route.path := "/v2/gifs/{id}";
         Route.url := "https://api.redgifs.com/v2/gifs/"
                      ++ quote (strip "/watch/" (yarl.path y)) |} [] in
  (exists r js u,
     respond (events w) lookup = Some r /\ status_code r = 200%Z /\
     json_body r = Some js /\ hd_of js = Some (JStr u) /\
     HTTP.download self url fp w = HTTP.dl self fp u (record (Call lookup) w))
  \/
  ((forall n, fst (HTTP.download self url fp w) <> Return n) /\
   snd (HTTP.download self url fp w) = record (Call lookup) w).
Proof.
  intros Hy Hhost Hwatch lookup. unfold watch_page_grammar in Hwatch.
  assert (forall (o : outcome Z) (w' : World),
            (forall n, o <> Return n) -> w' = record (Call lookup) w ->
            forall x, x = (o, w') ->
            (forall n, fst x <> Return n) /\ snd x = record (Call lookup) w) as stop
    by (intros o w' Ho Hw' x ->; now split).
  unfold HTTP.download. rewrite bind_lift, Hy, thumbs_host_forallb, Hhost, Hwatch.
  rewrite bind_run. unfold get_gif. rewrite bind_lift, Route_get_gif.
  unfold HTTP.self_request. rewrite bind_run, HTTP_request_cases. fold lookup.
  destruct (respond (events w) lookup) as [r |] eqn:Hr;
    [| right; eapply stop; [| | reflexivity]; [discriminate | reflexivity]].
  destruct (json_body r) as [js |] eqn:Hjs;
    [| right; eapply stop; [| | reflexivity]; [discriminate | reflexivity]].
  destruct (Z.eqb_spec (status_code r) 200) as [Hst | Hst];
    [| right; eapply stop; [| | reflexivity]; [discriminate | reflexivity]].
  unfold ret. cbv beta iota. rewrite bind_lift.
  unfold hd_of.
  destruct (getitem_of_json js "gif") as [(gif & Hgif & ->) | (_ & e & ->)];
    [| right; eapply stop; [| | reflexivity]; [discriminate | reflexivity]].
  rewrite bind_lift.
  destruct (getitem_of_json gif "urls") as [(urls & Hurls & ->) | (_ & e & ->)];
    [| right; eapply stop; [| | reflexivity]; [discriminate | reflexivity]].
  rewrite bind_lift.
  destruct (getitem_of_json urls "hd") as [(hd & Hhd & ->) | (_ & e & ->)];
    [| right; eapply stop; [| | reflexivity]; [discriminate | reflexivity]].
  destruct hd as [| b | z | u | l | fs];
    try (right; eapply stop; [| | reflexivity]; [discriminate | reflexivity]).
  left. exists r, js, u. rewrite Hgif, Hurls, Hhd. now repeat split.
Qed.

Lemma download_watch_lookup_witness :
  (exists y, Sample.URL "https://www.redgifs.com/watch/nothing" = Return y /\
             thumbs_host y = false /\ watch_page_grammar y = true) /\
  snd (HTTP.download (E := Sample.externals) Sample.http
         "https://www.redgifs.com/watch/nothing" (Path "out.mp4") Sample.world)
  = record (Call (requests_request (requests_Session 0) "GET"
                    "https://api.redgifs.com/v2/gifs/nothing"
                    (default_headers (E := Sample.externals)) None None 60 []))
      Sample.world.
Proof.
  split; [eexists; repeat split; reflexivity |].
  destruct (download_watch_lookup (E := Sample.externals) Sample.http
              "https://www.redgifs.com/watch/nothing" _ (Path "out.mp4") Sample.world
              eq_refl eq_refl eq_refl)
    as [(r & js & u & Hr & Hst & _) | [_ Hw]].
  - exfalso.
    change (Some (Sample.lookup "https://api.redgifs.com/v2/gifs/nothing") = Some r) in Hr.
    injection Hr as <-. vm_compute in Hst. discriminate Hst.
  - exact Hw.
Defined.

(** ** strip and the identifier of a watch page *)

Lemma lstrip_prefix (chars pre s : string) :
  all_chars (fun c => char_in c chars) pre = true ->
  lstrip chars (pre ++ s) = lstrip chars s.
Proof.
  induction pre as [|c pre IH]; [reflexivity |].
  simpl. intros [Hc Hpre]%andb_true_iff. rewrite Hc. now apply IH.
Qed.

Lemma lstrip_start (chars s : string) :
  starts_in chars s = false -> lstrip chars s = s.
Proof. destruct s as [|c s]; [reflexivity |]. simpl. now intros ->. Qed.

Lemma lstrip_length (chars s : string) :
  String.length (lstrip chars s) <= String.length s.
Proof.
  induction s as [|c s IH]; [reflexivity |].
  simpl. destruct (char_in c chars); simpl; lia.
Qed.

Lemma lstrip_shorter (chars s : string) :
  starts_in chars s = true -> String.length (lstrip chars s) < String.length s.
Proof.
  destruct s as [|c s]; [discriminate |].
  simpl. intros ->. pose proof (lstrip_length chars s). lia.
Qed.

Lemma rstrip_end (chars s : string) :
  ends_in chars s = false -> rstrip chars s = s.
Proof.
  induction s as [|c s IH]; [reflexivity |].
  destruct s as [|d s].
  - simpl. now intros ->.
  - intros Hend. change (ends_in chars (String d s) = false) in Hend.
    change (rstrip chars (String c (String d s)))
      with (match rstrip chars (String d s) with
            | EmptyString => if char_in c chars then EmptyString else String c EmptyString
            | r => String c r
            end).
    now rewrite (IH Hend).
Qed.

Lemma rstrip_length (chars s : string) :
  String.length (rstrip chars s) <= String.length s.
Proof.
  induction s as [|c s IH]; [reflexivity |].
  simpl. destruct (rstrip chars s); [destruct (char_in c chars) |]; simpl in *; lia.
Qed.

Lemma rstrip_shorter (chars s : string) :
  ends_in chars s = true -> String.length (rstrip chars s) < String.length s.
Proof.
  induction s as [|c s IH]; [discriminate |].
  destruct s as [|d s].
  - simpl. intros ->. simpl. lia.
  - intros Hend. change (ends_in chars (String d s) = true) in Hend.
    specialize (IH Hend).
    change (rstrip chars (String c (String d s)))
      with (match rstrip chars (String d s) with
            | EmptyString => if char_in c chars then EmptyString else String c EmptyString
            | r => String c r
            end).
    destruct (rstrip chars (String d s)); [destruct (char_in c chars) |];
      simpl in *; lia.
Qed.

(** [strip('/watch/')] gives the identifier of the path [/watch/<id>] back
    exactly when the identifier neither begins nor ends with one of the
    characters [/], [w], [a], [t], [c], [h]; any other identifier comes
    out shorter, and is looked up under another name. *)
Theorem strip_watch_exact (id : string) :
  (strip "/watch/" ("/watch/" ++ id) = id <->
   starts_in "/watch/" id = false /\ ends_in "/watch/" id = false)
  /\ String.length (strip "/watch/" ("/watch/" ++ id)) <= String.length id.
Proof.
  assert (strip "/watch/" ("/watch/" ++ id) = rstrip "/watch/" (lstrip "/watch/" id))
    as Hstrip by (unfold strip; now rewrite lstrip_prefix).
  rewrite Hstrip.
  pose proof (lstrip_length "/watch/" id) as Hl.
  pose proof (rstrip_length "/watch/" (lstrip "/watch/" id)) as Hr.
  split; [| lia]. split.
  - intros Heq.
    destruct (starts_in "/watch/" id) eqn:Hstart.
    + pose proof (lstrip_shorter _ _ Hstart). apply (f_equal String.length) in Heq. lia.
    + split; [reflexivity |]. rewrite lstrip_start in Heq by assumption.
      destruct (ends_in "/watch/" id) eqn:Hend; [| reflexivity].
      pose proof (rstrip_shorter _ _ Hend). apply (f_equal String.length) in Heq. lia.
  - intros [Hstart Hend]. now rewrite lstrip_start, rstrip_end.
Qed.

(** ** get_gif on the non-blocking transport *)

(** On [AsyncHttp], [get_gif] sends nothing: it returns the coroutine of
    the lookup and leaves the world as it is.  Awaiting that coroutine
    sends the lookup of the quoted identifier once, and for an answer whose
    body parses it returns the body on status 200 and raises
    [HTTPException] otherwise. *)
Theorem AsyncHttp_get_gif_awaited `{E : Externals} (aself : AsyncHttp.t) (id : string)
    (w : World) :
  let lookup :=
    AsyncHttp_request_call aself
      {| Route.method := "GET"; Route.path := "/v2/gifs/{id}";
         Route.url := "https://api.redgifs.com/v2/gifs/" ++ quote id |} [] in
  exists co,
    get_gif (AsyncHttp.self_request aself) id [] w = (Return (coroutine co), w) /\
    forall w1,
      snd (await co w1) = record (Call lookup) w1 /\
      forall r js,
        respond (events w1) lookup = Some r -> json_body r = Some js ->
        gated_on_200 r js (fst (await co w1)).
Proof.
  intros lookup. eexists. split.
  - unfold get_gif. rewrite bind_lift, Route_get_gif. reflexivity.
  - intros w1. split.
    + exact (request_sends_once_async aself _ [] w1).
    + intros r js Hr Hjs.
      rewrite (AsyncHttp_request_run aself _ [] w1 r js eq_refl Hr Hjs).
      apply gated_on_200_intro.
Qed.

(** ** A body that is not JSON *)

(** [request] parses the body before it looks at the status.  When the
    body of the answer does not parse, the error of [json()] is what
    [request] raises, on status 200 as on any other: no body is returned
    and no [HTTPException] is raised, and the call has been sent.  Both
    transports. *)
Theorem request_parses_first `{E : Externals} (self : HTTP.t) (aself : AsyncHttp.t)
    (route : Route.t) (kwargs : kwargs_t) (w : World) (r : Response) :
  json_body r = None ->
  (clashes ["method"; "url"; "headers"; "proxies"; "auth"; "timeout"] kwargs = false ->
   respond (events w) (HTTP_request_call self route kwargs) = Some r ->
   HTTP.request self route kwargs w =
     (Raise JSONDecodeError, record (Call (HTTP_request_call self route kwargs)) w))
  /\
  (clashes ["method"; "url"; "headers"; "proxy"; "proxy_auth"] kwargs = false ->
   respond (events w) (AsyncHttp_request_call aself route kwargs) = Some r ->
   await (AsyncHttp.request aself route kwargs) w =
     (Raise JSONDecodeError, record (Call (AsyncHttp_request_call aself route kwargs)) w)).
Proof.
  intros Hjs. split; intros Hk Hr.
  - unfold HTTP.request, check_kwargs, bind, perform, ret, raise.
    unfold HTTP_request_call in Hr. rewrite Hk. cbn. now rewrite Hr, Hjs.
  - unfold await, AsyncHttp.request, check_kwargs, bind, perform, ret, raise.
    unfold AsyncHttp_request_call in Hr. rewrite Hk. cbn. now rewrite Hr, Hjs.
Qed.

(** A gateway that answers every call with an HTML page and status 200. *)
Lemma request_parses_first_witness :
  let page := {| status_code := 200; content := "<html>"; json_body := None |} in
  let E := {| yarl_URL := Sample.URL; REDGIFS_THUMBS_RE := Sample.thumbs_re;
              __version__ := "1.0.0"; sys_version := "3.8.10";
              respond := fun _ _ => Some page |} in
  let route := {| Route.method := "GET"; Route.path := "/v1/tags";
                  Route.url := "https://api.redgifs.com/v1/tags" |} in
  json_body page = None /\
  fst (HTTP.request (E := E) Sample.http route [] Sample.world) = Raise JSONDecodeError /\
  fst (await (AsyncHttp.request (E := E) Sample.async_http route []) Sample.world)
    = Raise JSONDecodeError.
Proof.
  intros page E route. split; [reflexivity |].
  destruct (request_parses_first (E := E) Sample.http Sample.async_http route []
              Sample.world page eq_refl) as [Hs Ha].
  split.
  - now rewrite (Hs eq_refl eq_refl).
  - now rewrite (Ha eq_refl eq_refl).
Defined.
